(** * EdgeCart: personalized buy-probability and absorbing-Markov waste estimator

    Shallow embedding of [backend/utils/markov_waste_estimator.py] (with the
    lookup tables of [backend/utils/waste_impact.py] it falls back on) and the
    properties its specification states about it.

    Conventions of the embedding.
    - Python floats are read as exact real numbers ([R]); every statement
      below is a statement of exact arithmetic. One effect of the finite
      float range is kept, because it changes control flow: [x ** p] raises
      [OverflowError] when its value is beyond the largest float.
    - Python exceptions are explicit: a function that can raise returns a
      [result], and [try]/[except] is a [match] on it.
    - The ORM tables are lists of records held in a [Db] value that is passed
      to every function that queries them; [MODELS_AVAILABLE], a module-level
      flag of the source, is a field of that value.
    - numpy arrays are index functions [nat -> nat -> R] used together with
      their shape. *)

From Stdlib Require Import Reals Lra Lia ZArith List Bool String Ascii.
From Stdlib Require Import ClassicalDescription IndefiniteDescription.
Import ListNotations.

Local Open Scope R_scope.

(** ** Python primitives *)

Module Py.

Inductive exn : Type :=
| ValueError
| ZeroDivisionError
| IndexError
| OverflowError.

Inductive result (A : Type) : Type :=
| Ok (a : A)
| Raise (e : exn).

Arguments Ok {A} a.
Arguments Raise {A} e.

Definition bind {A B : Type} (r : result A) (k : A -> result B) : result B :=
  match r with
  | Ok a => k a
  | Raise e => Raise e
  end.

(** [int(x)] on a float: truncation toward zero. *)
Definition int (x : R) : Z :=
  if Rle_dec 0 x then Int_part x else (- Int_part (- x))%Z.

(** [sys.float_info.max], the largest finite float:
    [(2 - 2 ** -52) * 2 ** 1023]. *)
Definition float_max : R := (2 - / 2 ^ 52) * 2 ^ 1023.

(** [x ** p] for a float base [x >= 0] (the only bases the estimator
    produces): [0.0 ** p] is [0.0] for [p > 0], [1.0] for [p = 0] and a
    [ZeroDivisionError] for [p < 0]; for [x > 0] an [OverflowError] when the
    power is beyond the largest float, the power otherwise. *)
Definition pow (x p : R) : result R :=
  if Req_dec_T x 0 then
    if Rlt_dec 0 p then Ok 0
    else if Req_dec_T p 0 then Ok 1
    else Raise ZeroDivisionError
  else if Rlt_dec float_max (Rpower x p) then Raise OverflowError
  else Ok (Rpower x p).

(** [round(x, 2)]: the nearest multiple of 1/100, ties to the even one. *)
Definition round_half_even (y : R) : Z :=
  let f := Int_part y in
  let r := y - IZR f in
  if Rlt_dec r (1 / 2) then f
  else if Rlt_dec (1 / 2) r then (f + 1)%Z
  else if Z.even f then f else (f + 1)%Z.

Definition round2 (x : R) : R := IZR (round_half_even (x * 100)) / 100.

(** [str.lower()] on ASCII text. *)
Definition lower_ascii (c : ascii) : ascii :=
  let n := nat_of_ascii c in
  if andb (Nat.leb 65 n) (Nat.leb n 90) then ascii_of_nat (n + 32) else c.

Fixpoint lower (s : string) : string :=
  match s with
  | EmptyString => EmptyString
  | String c s' => String (lower_ascii c) (lower s')
  end.

(** [d.get(key, default)] on a dict written as an association list. *)
Fixpoint dict_get (d : list (string * R)) (key : string) (default : R) : R :=
  match d with
  | [] => default
  | (k, v) :: d' => if String.eqb k key then v else dict_get d' key default
  end.

End Py.

Import Py.

Notation "x <- c1 ;; c2" := (bind c1 (fun x => c2))
  (at level 61, c1 at next level, right associativity).

(** ** The stored tables *)

(** Modelled from the spec: the ORM classes of [models.py], which the
    estimator imports, as the six records below; only the columns it reads
    are kept, with counts as naturals. A curve whose JSON column is NULL
    reads like one whose column is the empty list, since the source tests
    both with [not bins]. *)
Record PriceCurve : Type := {
  pc_category : string;
  x_discount_bins : list R;
  y_pbuy : list R
}.

Record UserDiscountStat : Type := {
  uds_user_id : Z;
  uds_product_name : string;
  bin_low : R;
  bin_high : R;
  trials : nat;
  buys : nat
}.

Record FruitInventory : Type := {
  inv_id : Z;
  store_id : Z;
  fruit_type : string;
  quantity : Z;
  current_price : R;
  original_price : R;
  (** [freshness.freshness_score] of the linked row, [None] without one. *)
  freshness : option R
}.

Record Customer : Type := { customer_id : Z }.

Record ProductLCA : Type := {
  lca_product_name : string;
  mass_kg : R;
  ef_prod_kgco2e_perkg : R;
  ef_disposal_kgco2e_perunit : R;
  displacement : R
}.

Record Db : Type := {
  MODELS_AVAILABLE : bool;
  price_curves : list PriceCurve;
  user_discount_stats : list UserDiscountStat;
  inventory : list FruitInventory;
  customers : list Customer;
  product_lcas : list ProductLCA
}.

(** [PriceCurve.query.filter_by(category=category).first()] *)
Definition query_price_curve (db : Db) (category : string) : option PriceCurve :=
  find (fun c => String.eqb (pc_category c) category) (price_curves db).

(** [UserDiscountStat.query.filter_by(user_id=..., product_name=...).all()] *)
Definition query_user_stats (db : Db) (user_id : Z) (product_name : string)
  : list UserDiscountStat :=
  filter (fun r => andb (Z.eqb (uds_user_id r) user_id)
                        (String.eqb (uds_product_name r) product_name))
         (user_discount_stats db).

(** [FruitInventory.query.get(lot_id)] *)
Definition query_inventory_get (db : Db) (lot_id : Z) : option FruitInventory :=
  find (fun it => Z.eqb (inv_id it) lot_id) (inventory db).

(** [ProductLCA.query.filter_by(product_name=product_name).first()] *)
Definition query_product_lca (db : Db) (product_name : string) : option ProductLCA :=
  find (fun l => String.eqb (lca_product_name l) product_name) (product_lcas db).

(** ** Discount curve *)

Definition calculate_discount_from_freshness
  (freshness_score max_discount power : R) : result R :=
  if andb (if Rle_dec 0 freshness_score then true else false)
          (if Rle_dec freshness_score 1 then true else false)
  then
    let max_discount :=
      if Rlt_dec 1 max_discount then max_discount / 100 else max_discount in
    fp <- pow freshness_score power ;;
    let discount := max_discount * (1 - fp) in
    Ok (Rmax 0 (Rmin max_discount discount))
  else Raise ValueError.

(** ** Population model *)

(** The linear approximation used when no curve is stored. *)
Definition linear_fallback (discount_pct : R) : R :=
  Rmin (9 / 10) (5 / 100 + (discount_pct / 100) * (85 / 100)).

(** [np.interp] on the segments to the right of the control point [(x0, y0)]:
    the value on the first segment whose right end is beyond [x], the last
    ordinate when there is none. *)
Fixpoint interp_segments (x x0 y0 : R) (xs ys : list R) : R :=
  match xs, ys with
  | x1 :: xs', y1 :: ys' =>
      if Rlt_dec x x1 then (y1 - y0) / (x1 - x0) * (x - x0) + y0
      else interp_segments x x1 y1 xs' ys'
  | _, _ => y0
  end.

(** [np.interp(x, xp, fp, left=, right=)] as numpy documents it for
    non-decreasing [xp]: [left] below the first abscissa, [right] above the
    last, the piecewise-linear interpolant in between. numpy raises on empty
    or unequal-length inputs; the caller below excludes both before the call,
    and the model returns [left] there. *)
Definition np_interp (x : R) (xp fp : list R) (left right : R) : R :=
  match xp, fp with
  | x0 :: xs, y0 :: ys =>
      if Rlt_dec x x0 then left
      else if Rlt_dec (last xp x0) x then right
      else interp_segments x x0 y0 xs ys
  | _, _ => left
  end.

(** [not l] on a list. *)
Definition is_empty {A : Type} (l : list A) : bool :=
  match l with [] => true | _ :: _ => false end.

Definition p_buy_pop_interp (db : Db) (discount_pct : R) (category : string) : R :=
  if negb (MODELS_AVAILABLE db) then linear_fallback discount_pct
  else
    match query_price_curve db category with
    | None => linear_fallback discount_pct
    | Some price_curve =>
        let bins := x_discount_bins price_curve in
        let probs := y_pbuy price_curve in
        if orb (is_empty bins)
               (orb (is_empty probs)
                    (negb (Nat.eqb (List.length bins) (List.length probs))))
        then 5 / 100
        else np_interp discount_pct bins probs
                       (hd (5 / 100) probs) (last probs (9 / 10))
    end.

(** ** Personalized model *)

Definition matching_stats (db : Db) (user_id : Z) (product_name : string)
  (discount_pct : R) : list UserDiscountStat :=
  filter (fun r => andb (if Rle_dec (bin_low r) discount_pct then true else false)
                        (if Rlt_dec discount_pct (bin_high r) then true else false))
         (query_user_stats db user_id product_name).

Definition sum_nat (l : list nat) : nat := fold_right Nat.add 0%nat l.

Definition p_buy_user_beta (db : Db) (user_id : Z) (product_name : string)
  (discount_pct : R) : R * nat :=
  if negb (MODELS_AVAILABLE db) then (0, 0%nat)
  else
    let matches := matching_stats db user_id product_name discount_pct in
    let n_trials := sum_nat (map trials matches) in
    let n_buys := sum_nat (map buys matches) in
    if Nat.eqb n_trials 0 then (0, 0%nat)
    else ((INR n_buys + 1) / (INR n_trials + 2), n_trials).

(** ** Blended model *)

Definition p_buy_blend (db : Db) (user_id : Z) (product_name category : string)
  (discount_pct : R) (m : Z) : result R :=
  let p_pop := p_buy_pop_interp db discount_pct category in
  let '(p_user, n) := p_buy_user_beta db user_id product_name discount_pct in
  if Nat.eqb n 0 then Ok p_pop
  else if Z.eqb (Z.of_nat n + m) 0 then Raise ZeroDivisionError
  else
    let w := INR n / IZR (Z.of_nat n + m) in
    Ok (w * p_user + (1 - w) * p_pop).

(** ** numpy arrays and the linear algebra the solver uses *)

Module Np.

Definition ndarray : Type := nat -> nat -> R.

(** [np.zeros(shape)] and [np.eye(n)] *)
Definition zeros : ndarray := fun _ _ => 0.
Definition eye : ndarray := fun i j => if Nat.eqb i j then 1 else 0.

(** [A[i, j] = v] *)
Definition setitem (A : ndarray) (i j : nat) (v : R) : ndarray :=
  fun i' j' => if andb (Nat.eqb i' i) (Nat.eqb j' j) then v else A i' j'.

(** [A - B] *)
Definition sub (A B : ndarray) : ndarray := fun i j => A i j - B i j.

(** The sum of [f 0 .. f (n-1)]. *)
Fixpoint rsum (n : nat) (f : nat -> R) : R :=
  match n with
  | O => 0
  | S m => rsum m f + f m
  end.

(** [A @ B] with inner dimension [n] *)
Definition matmul (n : nat) (A B : ndarray) : ndarray :=
  fun i j => rsum n (fun l => A i l * B l j).

(** Equality of the entries within an [n] by [m] shape. *)
Definition eq_on (n m : nat) (A B : ndarray) : Prop :=
  forall i j, (i < n)%nat -> (j < m)%nat -> A i j = B i j.

Definition is_inverse (n : nat) (A N : ndarray) : Prop :=
  eq_on n n (matmul n A N) eye /\ eq_on n n (matmul n N A) eye.

Definition invertible (n : nat) (A : ndarray) : Prop :=
  exists N, is_inverse n A N.

(** [np.linalg.inv(A)] for an [n] by [n] array, in exact arithmetic: the
    inverse when there is one, [None] for the [LinAlgError] numpy raises on
    a singular matrix. *)
Definition linalg_inv (n : nat) (A : ndarray) : option ndarray :=
  match excluded_middle_informative (invertible n A) with
  | left H => Some (proj1_sig (constructive_indefinite_description _ H))
  | right _ => None
  end.

(** [A[i, j]] for Python integers on an array of shape [(rows, cols)]:
    a negative index counts from the end, anything else out of range is an
    [IndexError]. *)
Definition index (len : nat) (i : Z) : result nat :=
  if andb (0 <=? i)%Z (i <? Z.of_nat len)%Z then Ok (Z.to_nat i)
  else if andb (- Z.of_nat len <=? i)%Z (i <? 0)%Z
       then Ok (Z.to_nat (i + Z.of_nat len))
       else Raise IndexError.

Definition getitem (rows cols : nat) (A : ndarray) (i j : Z) : result R :=
  i' <- index rows i ;;
  j' <- index cols j ;;
  Ok (A i' j').

(** The determinant of the leading [n] by [n] block, expanded along the
    first column. *)
Definition skip (i r : nat) : nat := if Nat.ltb r i then r else S r.

Definition minor (A : ndarray) (i j : nat) : ndarray :=
  fun r c => A (skip i r) (skip j c).

Fixpoint det (n : nat) (A : ndarray) : R :=
  match n with
  | O => 1
  | S m => rsum (S m) (fun i => (-1) ^ i * A i O * det m (minor A i 0))
  end.

(** Unit upper triangular: ones on the diagonal, zeros below it. *)
Definition unit_upper_triangular (n : nat) (A : ndarray) : Prop :=
  (forall i, (i < n)%nat -> A i i = 1) /\
  (forall i j, (i < n)%nat -> (j < i)%nat -> A i j = 0).

End Np.

Import Np.

(** ** Absorbing Markov solver *)

(** [for a in l: s = body(s, a)] where the body may raise. *)
Fixpoint for_each {S A : Type} (body : S -> A -> result S) (l : list A) (s : S)
  : result S :=
  match l with
  | [] => Ok s
  | a :: l' => s' <- body s a ;; for_each body l' s'
  end.

(** The blended buy probability of bucket [k] among [K]: lines 167-175 of the
    loop body. *)
Definition bucket_probability (db : Db) (dmax alpha : R) (K : Z)
  (user_id : Z) (product_name category : string) (k : nat) : result R :=
  let Fk := 1 - INR (k - 1) / IZR K in
  dk <- calculate_discount_from_freshness Fk dmax alpha ;;
  let dk_pct := dk * 100 in
  p_buy_blend db user_id product_name category dk_pct 15.

(** One turn of [for k in range(1, K + 1)] on the pair of arrays [(Q, R)]. *)
Definition chain_step (db : Db) (dmax alpha : R) (K : Z)
  (user_id : Z) (product_name category : string)
  (QR : ndarray * ndarray) (k : nat) : result (ndarray * ndarray) :=
  let '(Qm, Rm) := QR in
  p <- bucket_probability db dmax alpha K user_id product_name category k ;;
  if (k <? Z.to_nat K)%nat then
    Ok (setitem Qm (k - 1) k (1 - p), setitem Rm (k - 1) 0 p)
  else
    Ok (Qm, setitem (setitem Rm (k - 1) 0 p) (k - 1) 1 (1 - p)).

(** [sold_prob_markov] over the inversion routine [inv], which returns [None]
    where [np.linalg.inv] raises [LinAlgError]. *)
Definition sold_prob_markov_with (inv : nat -> ndarray -> option ndarray)
  (db : Db) (freshness dmax alpha : R) (K : Z) (dt_hours : R)
  (user_id : Z) (product_name category : string) : result R :=
  let k0 := (int ((1 - Rmax 0 (Rmin 1 freshness)) * IZR K) + 1)%Z in
  let k0 := Z.min k0 K in
  (* np.zeros refuses a negative dimension *)
  if (K <? 0)%Z then Raise ValueError
  else
    let n := Z.to_nat K in
    QR <- for_each (chain_step db dmax alpha K user_id product_name category)
                   (seq 1 n) (zeros, zeros) ;;
    let '(Qm, Rm) := QR in
    let I := eye in
    match inv n (sub I Qm) with
    | None => Ok 0
    | Some N =>
        let B := matmul n N Rm in
        getitem n 2 B (k0 - 1) 0
    end.

Definition sold_prob_markov : Db -> R -> R -> R -> Z -> R -> Z -> string -> string
                              -> result R :=
  sold_prob_markov_with linalg_inv.

(** ** Per-lot impact *)

Record PolicyParams : Type := { dmax : R; alpha : R }.

Definition estimate_units_saved (db : Db) (lot_id : Z)
  (baseline_params dynamic_params : PolicyParams) (user_id : Z)
  (K : Z) (dt_hours : R) : result R :=
  if negb (MODELS_AVAILABLE db) then Ok 0
  else
    match query_inventory_get db lot_id with
    | None => Ok 0
    | Some inventory_item =>
        let current_freshness :=
          match freshness inventory_item with
          | Some freshness_score =>
              let freshness_score :=
                if Rlt_dec 1 freshness_score then freshness_score / 100
                else freshness_score in
              Rmax 0 (Rmin 1 freshness_score)
          | None => 1
          end in
        let product_name := fruit_type inventory_item in
        let category := product_name in
        ps_dyn <- sold_prob_markov db current_freshness
                    (dmax dynamic_params) (alpha dynamic_params)
                    K dt_hours user_id product_name category ;;
        ps_base <- sold_prob_markov db current_freshness
                     (dmax baseline_params) (alpha baseline_params)
                     K dt_hours user_id product_name category ;;
        Ok (Rmax 0 (IZR (quantity inventory_item) * (ps_dyn - ps_base)))
    end.

(** The fallback tables of [waste_impact.py]. *)
Definition CO2_EMISSION_FACTORS : list (string * R) :=
  [("apple", 43 / 100); ("banana", 48 / 100); ("orange", 39 / 100);
   ("strawberry", 67 / 100); ("grape", 46 / 100); ("avocado", 85 / 100);
   ("tomato", 25 / 100); ("lettuce", 35 / 100); ("blueberry", 72 / 100);
   ("mango", 55 / 100); ("pear", 40 / 100); ("watermelon", 30 / 100);
   ("peach", 38 / 100); ("cherry", 65 / 100); ("default", 45 / 100)]%string.

Definition AVERAGE_WEIGHT_PER_UNIT : list (string * R) :=
  [("apple", 18 / 100); ("banana", 12 / 100); ("orange", 15 / 100);
   ("strawberry", 2 / 100); ("grape", 5 / 1000); ("avocado", 20 / 100);
   ("tomato", 15 / 100); ("lettuce", 30 / 100); ("blueberry", 1 / 1000);
   ("mango", 35 / 100); ("pear", 18 / 100); ("watermelon", 45 / 10);
   ("peach", 15 / 100); ("cherry", 8 / 1000); ("default", 15 / 100)]%string.

Definition get_emission_factor (fruit_type : string) : R :=
  dict_get CO2_EMISSION_FACTORS (lower fruit_type) (45 / 100).

Definition get_average_weight (fruit_type : string) : R :=
  dict_get AVERAGE_WEIGHT_PER_UNIT (lower fruit_type) (15 / 100).

Definition calculate_weight_from_quantity (fruit_type : string) (quantity : R) : R :=
  quantity * get_average_weight fruit_type.

Definition estimate_co2e_saved (db : Db) (units_saved : R) (product_name : string) : R :=
  if orb (negb (MODELS_AVAILABLE db))
         (if Rle_dec units_saved 0 then true else false)
  then 0
  else
    match query_product_lca db product_name with
    | None =>
        let emission_factor := get_emission_factor product_name in
        let mass_kg := get_average_weight product_name in
        let co2e_per_unit := mass_kg * emission_factor in
        units_saved * co2e_per_unit
    | Some product_lca =>
        let co2e_per_unit :=
          displacement product_lca * mass_kg product_lca
            * ef_prod_kgco2e_perkg product_lca
          + ef_disposal_kgco2e_perunit product_lca in
        units_saved * co2e_per_unit
    end.

Definition estimate_additional_revenue_generated (units_saved : R)
  (product_name : string) (avg_price_per_unit : R) : R :=
  units_saved * avg_price_per_unit.

(** ** Portfolio aggregate *)

Record Impact : Type := {
  units_saved : R;
  waste_saved_kg : R;
  co2e_saved : R;
  revenue_generated : R
}.

Definition zero_impact : Impact :=
  {| units_saved := 0; waste_saved_kg := 0; co2e_saved := 0;
     revenue_generated := 0 |}.

(** The price handed to the revenue estimate. *)
Definition price_per_unit (item : FruitInventory) : R :=
  if Rlt_dec 0 (current_price item) then current_price item
  else original_price item.

(** The running totals [(units, co2e, revenue, weight)] after one lot; a lot
    whose estimate raises leaves them as they were. *)
Definition aggregate_step (db : Db) (baseline_params dynamic_params : PolicyParams)
  (user_id : Z) (totals : R * R * R * R) (item : FruitInventory)
  : R * R * R * R :=
  let '(total_units_saved, total_co2e_saved, total_revenue, total_waste_saved_kg) :=
    totals in
  match estimate_units_saved db (inv_id item) baseline_params dynamic_params
                             user_id 48 1 with
  | Raise _ => totals
  | Ok units =>
      if Rlt_dec 0 units then
        let co2e := estimate_co2e_saved db units (fruit_type item) in
        let revenue :=
          estimate_additional_revenue_generated units (fruit_type item)
                                                (price_per_unit item) in
        let weight_kg := calculate_weight_from_quantity (fruit_type item) units in
        (total_units_saved + units, total_co2e_saved + co2e,
         total_revenue + revenue, total_waste_saved_kg + weight_kg)
      else totals
  end.

(** [FruitInventory.query.filter(quantity > 0)], narrowed to [store_id] when
    that is given and truthy. *)
Definition query_inventory (db : Db) (store : option Z) : list FruitInventory :=
  let positive := filter (fun it => (0 <? quantity it)%Z) (inventory db) in
  match store with
  | Some s => if Z.eqb s 0 then positive
              else filter (fun it => Z.eqb (store_id it) s) positive
  | None => positive
  end.

Definition default_baseline : PolicyParams := {| dmax := 0; alpha := 1 |}.
Definition default_dynamic : PolicyParams := {| dmax := 75 / 100; alpha := 15 / 10 |}.

Definition compute_aggregate_impact (db : Db) (store : option Z) (user_id : option Z)
  (baseline_params dynamic_params : option PolicyParams) : Impact :=
  if negb (MODELS_AVAILABLE db) then zero_impact
  else
    let baseline_params :=
      match baseline_params with Some b => b | None => default_baseline end in
    let dynamic_params :=
      match dynamic_params with Some d => d | None => default_dynamic end in
    let user :=
      match user_id with
      | Some u => Some u
      | None => option_map customer_id (hd_error (customers db))
      end in
    match user with
    | None => zero_impact
    | Some user_id =>
        let inventory_items := query_inventory db store in
        if Nat.eqb (List.length inventory_items) 0 then zero_impact
        else
          let '(total_units_saved, total_co2e_saved, total_revenue,
                total_waste_saved_kg) :=
            fold_left (aggregate_step db baseline_params dynamic_params user_id)
                      inventory_items (0, 0, 0, 0) in
          {| units_saved := round2 total_units_saved;
             waste_saved_kg := round2 total_waste_saved_kg;
             co2e_saved := round2 total_co2e_saved;
             revenue_generated := round2 total_revenue |}
    end.

(** ** Vocabulary of the specification *)

(** A curve the population model interpolates: non-empty control points of
    equal number. Anything else is malformed. *)
Definition well_formed (c : PriceCurve) : Prop :=
  x_discount_bins c <> [] /\
  List.length (x_discount_bins c) = List.length (y_pbuy c).

Definition malformed (c : PriceCurve) : Prop :=
  x_discount_bins c = [] \/ y_pbuy c = [] \/
  List.length (x_discount_bins c) <> List.length (y_pbuy c).

Fixpoint nondecreasing (l : list R) : Prop :=
  match l with
  | [] => True
  | x :: l' =>
      match l' with
      | [] => True
      | y :: _ => x <= y /\ nondecreasing l'
      end
  end.

(** The summed trial count of the rows of [user_id] and [product_name] whose
    bin holds [discount_pct]. *)
Definition matching_trials (db : Db) (user_id : Z) (product_name : string)
  (discount_pct : R) : nat :=
  sum_nat (map trials (matching_stats db user_id product_name discount_pct)).

Definition matching_buys (db : Db) (user_id : Z) (product_name : string)
  (discount_pct : R) : nat :=
  sum_nat (map buys (matching_stats db user_id product_name discount_pct)).

(** The ratio the discount curve works with: a maximum above 1 is read as a
    percentage. *)
Definition normalize_max_discount (m : R) : R :=
  if Rlt_dec 1 m then m / 100 else m.

(** The product of [f a .. f (a + len - 1)]. *)
Fixpoint rprod (a len : nat) (f : nat -> R) : R :=
  match len with
  | O => 1
  | S l => f a * rprod (S a) l f
  end.

(** The arrays the loop of [sold_prob_markov] leaves behind when bucket [k]
    (counted from 1) sells with probability [p k]: [Q[k-1, k] = 1 - p k] for
    [k < n], [R[k-1, 0] = p k], and [R[n-1, 1] = 1 - p n]. *)
Definition chain_Q (n : nat) (p : nat -> R) : ndarray :=
  fun i j => if andb (S i <? n)%nat (j =? S i)%nat then 1 - p (S i) else 0.

Definition chain_R (n : nat) (p : nat -> R) : ndarray :=
  fun i j =>
    if (i <? n)%nat then
      if (j =? 0)%nat then p (S i)
      else if andb (j =? 1)%nat (S i =? n)%nat then 1 - p (S i)
      else 0
    else 0.

(** The inverse of [I - chain_Q n p]: entry [(i, j)] is the probability of
    surviving buckets [i+1 .. j] unsold. *)
Definition chain_N (p : nat -> R) : ndarray :=
  fun i j => if (i <=? j)%nat then rprod (S i) (j - i) (fun k => 1 - p k) else 0.

(** The probability of a sale in one of the buckets [k0 .. n]. *)
Definition sale_from (n : nat) (p : nat -> R) (k0 : nat) : R :=
  1 - rprod k0 (S n - k0) (fun k => 1 - p k).

(** The value of [p_buy_blend] at the solver's [m = 15], where it cannot
    raise. *)
Definition blend15 (db : Db) (user_id : Z) (product_name category : string)
  (discount_pct : R) : R :=
  let p_pop := p_buy_pop_interp db discount_pct category in
  let '(p_user, n) := p_buy_user_beta db user_id product_name discount_pct in
  if Nat.eqb n 0 then p_pop
  else INR n / (INR n + 15) * p_user + (1 - INR n / (INR n + 15)) * p_pop.

(** The discount of bucket [k] among [K], as a ratio. *)
Definition bucket_discount (dmax alpha : R) (K : Z) (k : nat) : R :=
  let Fk := 1 - INR (k - 1) / IZR K in
  let m := normalize_max_discount dmax in
  Rmax 0 (Rmin m (m * (1 - Rpower Fk alpha))).

(** The power of bucket [k]'s freshness is within the float range:
    [Fk ** alpha] does not overflow. *)
Definition bucket_in_range (alpha : R) (K : Z) (k : nat) : Prop :=
  Rpower (1 - INR (k - 1) / IZR K) alpha <= float_max.

(** No bucket of the loop overflows under the power [alpha]. *)
Definition policy_in_range (alpha : R) (K : Z) : Prop :=
  forall k, (1 <= k <= Z.to_nat K)%nat -> bucket_in_range alpha K k.

(** The blended buy probability of bucket [k] at that discount. *)
Definition bucket_p (db : Db) (dmax alpha : R) (K : Z)
  (user_id : Z) (product_name category : string) (k : nat) : R :=
  blend15 db user_id product_name category (bucket_discount dmax alpha K k * 100).

(** The starting bucket of an item of the given freshness. *)
Definition start_bucket (freshness : R) (K : Z) : Z :=
  Z.min (int ((1 - Rmax 0 (Rmin 1 freshness)) * IZR K) + 1) K.

(** The freshness [estimate_units_saved] hands to the solver: the stored
    score, divided by 100 when above 1, clamped to the unit interval; fully
    fresh without a stored score. *)
Definition lot_freshness (item : FruitInventory) : R :=
  match freshness item with
  | Some freshness_score =>
      Rmax 0 (Rmin 1 (if Rlt_dec 1 freshness_score then freshness_score / 100
                      else freshness_score))
  | None => 1
  end.

(** The user and the policies [compute_aggregate_impact] settles on before
    it visits the lots: the caller's, else the first customer and the
    default parameters. *)
Definition resolved_user (db : Db) (user_id : option Z) : option Z :=
  match user_id with
  | Some u => Some u
  | None => option_map customer_id (hd_error (customers db))
  end.

Definition resolved_policy (given : option PolicyParams) (default : PolicyParams)
  : PolicyParams :=
  match given with
  | Some params => params
  | None => default
  end.

(** ** More of waste_impact.py *)

Definition BASELINE_WASTE_RATES : list (string * R) :=
  [("apple", 12 / 100); ("banana", 15 / 100); ("orange", 10 / 100);
   ("strawberry", 20 / 100); ("grape", 18 / 100); ("avocado", 25 / 100);
   ("tomato", 15 / 100); ("lettuce", 22 / 100); ("blueberry", 18 / 100);
   ("mango", 20 / 100); ("pear", 12 / 100); ("watermelon", 15 / 100);
   ("peach", 18 / 100); ("cherry", 20 / 100); ("default", 15 / 100)]%string.

(** The dict of the source, keys in the order [sorted] gives them. *)
Definition DISCOUNT_EFFECTIVENESS : list (R * R) :=
  [(0, 0); (10, 15 / 100); (25, 45 / 100); (50, 75 / 100); (75, 90 / 100)].

Definition get_baseline_waste_rate (fruit_type : string) : R :=
  dict_get BASELINE_WASTE_RATES (lower fruit_type) (15 / 100).

Definition calculate_co2_saved (fruit_type : string) (weight_kg : R) : R :=
  let emission_factor := get_emission_factor fruit_type in
  weight_kg * emission_factor.

(** [for i in range(len(discounts) - 1)] of the interpolation: the first
    pair of neighbouring levels that holds the discount; 0.5 after the loop. *)
Fixpoint effectiveness_scan (discount : R) (levels : list (R * R)) : R :=
  match levels with
  | (low_disc, low_eff) :: (((high_disc, high_eff) :: _) as rest) =>
      if andb (if Rle_dec low_disc discount then true else false)
              (if Rle_dec discount high_disc then true else false)
      then
        let ratio := (discount - low_disc) / (high_disc - low_disc) in
        low_eff + (high_eff - low_eff) * ratio
      else effectiveness_scan discount rest
  | _ => 1 / 2
  end.

Definition _interpolate_discount_effectiveness (discount : R) : R :=
  let discounts := map fst DISCOUNT_EFFECTIVENESS in
  if Rle_dec discount (hd 0 discounts) then hd 0 (map snd DISCOUNT_EFFECTIVENESS)
  else if Rle_dec (last discounts 0) discount
       then last (map snd DISCOUNT_EFFECTIVENESS) 0
       else effectiveness_scan discount DISCOUNT_EFFECTIVENESS.



Definition calculate_actual_waste_with_system (db : Db) (inventory_id : Z)
  (quantity_wasted : Z) : R * R :=
  match query_inventory_get db inventory_id with
  | None => (0, 0)
  | Some item =>
      let fruit_type := fruit_type item in
      let waste_kg :=
        calculate_weight_from_quantity fruit_type (IZR quantity_wasted) in
      let co2_emitted_kg := calculate_co2_saved fruit_type waste_kg in
      (waste_kg, co2_emitted_kg)
  end.

(** ** More vocabulary *)

Fixpoint strictly_increasing (l : list R) : Prop :=
  match l with
  | [] => True
  | x :: l' =>
      match l' with
      | [] => True
      | y :: _ => x < y /\ strictly_increasing l'
      end
  end.

(** The stored probabilities of a category are probabilities: whenever its
    curve is interpolated, every ordinate lies in the unit interval. *)
Definition curve_in_unit_interval (db : Db) (category : string) : Prop :=
  forall c, MODELS_AVAILABLE db = true ->
            query_price_curve db category = Some c -> well_formed c ->
            Forall (fun y => 0 <= y <= 1) (y_pbuy c).

(** No stored row counts more purchases than offers. *)
Definition stats_consistent (db : Db) : Prop :=
  forall r, In r (user_discount_stats db) -> (buys r <= trials r)%nat.

(** The table with one more row of personal statistics. *)
Definition add_stat (db : Db) (r : UserDiscountStat) : Db :=
  {| MODELS_AVAILABLE := MODELS_AVAILABLE db;
     price_curves := price_curves db;
     user_discount_stats := r :: user_discount_stats db;
     inventory := inventory db;
     customers := customers db;
     product_lcas := product_lcas db |}.

(** Whether a row counts for a user, a product and a discount: the bin is
    closed below and open above. *)
Definition row_matches (r : UserDiscountStat) (user_id : Z) (product_name : string)
  (discount_pct : R) : bool :=
  andb (andb (Z.eqb (uds_user_id r) user_id)
             (String.eqb (uds_product_name r) product_name))
       (andb (if Rle_dec (bin_low r) discount_pct then true else false)
             (if Rlt_dec discount_pct (bin_high r) then true else false)).

Definition sum_R (l : list R) : R := fold_right Rplus 0 l.

(** What one lot adds to the aggregate's unit total: its estimate with the
    default 48 buckets, nothing when the estimate raises. *)
Definition lot_units (db : Db) (baseline_params dynamic_params : PolicyParams)
  (user_id : Z) (item : FruitInventory) : R :=
  match estimate_units_saved db (inv_id item) baseline_params dynamic_params
                             user_id 48 1 with
  | Ok units => units
  | Raise _ => 0
  end.

(** The tables with another inventory, and a lot with another freshness
    score. *)
Definition with_inventory (db : Db) (lots : list FruitInventory) : Db :=
  {| MODELS_AVAILABLE := MODELS_AVAILABLE db;
     price_curves := price_curves db;
     user_discount_stats := user_discount_stats db;
     inventory := lots;
     customers := customers db;
     product_lcas := product_lcas db |}.

Definition with_freshness (item : FruitInventory) (score : option R)
  : FruitInventory :=
  {| inv_id := inv_id item;
     store_id := store_id item;
     fruit_type := fruit_type item;
     quantity := quantity item;
     current_price := current_price item;
     original_price := original_price item;
     freshness := score |}.

(** ** Sample data *)

Module Sample.

Definition db_of_curve (c : PriceCurve) : Db :=
  {| MODELS_AVAILABLE := true;
     price_curves := [c];
     user_discount_stats := [];
     inventory := [];
     customers := [];
     product_lcas := [] |}.

(** A stored curve with no control points. *)
Definition empty_curve : PriceCurve :=
  {| pc_category := "apple"; x_discount_bins := []; y_pbuy := [] |}.

(** A stored curve whose probability falls as the discount grows. *)
Definition falling_curve : PriceCurve :=
  {| pc_category := "apple";
     x_discount_bins := [0; 50];
     y_pbuy := [9 / 10; 1 / 10] |}.

(** The curve [seed_markov_data.py] stores for apples. *)
Definition apple_curve : PriceCurve :=
  {| pc_category := "apple";
     x_discount_bins := [0; 10; 25; 50; 75];
     y_pbuy := [5 / 100; 15 / 100; 45 / 100; 75 / 100; 90 / 100] |}.

End Sample.

Module SampleStats.

(** Ten offers at any discount below 100%, four of them bought. *)
Definition shopper_row : UserDiscountStat :=
  {| uds_user_id := 1;
     uds_product_name := "apple";
     bin_low := 0;
     bin_high := 100;
     trials := 10;
     buys := 4 |}.

(** A shopper who took every one of fifteen full-price offers and none of
    fifteen discounted ones. *)
Definition full_price_row : UserDiscountStat :=
  {| uds_user_id := 2;
     uds_product_name := "apple";
     bin_low := 0;
     bin_high := 10;
     trials := 15;
     buys := 15 |}.

Definition discounted_row : UserDiscountStat :=
  {| uds_user_id := 2;
     uds_product_name := "apple";
     bin_low := 10;
     bin_high := 100;
     trials := 15;
     buys := 0 |}.

Definition db_with_stats : Db :=
  {| MODELS_AVAILABLE := true;
     price_curves := [Sample.apple_curve];
     user_discount_stats := [shopper_row; full_price_row; discounted_row];
     inventory := [];
     customers := [];
     product_lcas := [] |}.

End SampleStats.

Module SampleStore.

(** A hundred apples at a fifth of their freshness. *)
Definition apple_lot : FruitInventory :=
  {| inv_id := 7;
     store_id := 1;
     fruit_type := "apple";
     quantity := 100;
     current_price := 2;
     original_price := 3;
     freshness := Some (1 / 5) |}.

Definition store_db : Db :=
  {| MODELS_AVAILABLE := true;
     price_curves := [Sample.apple_curve];
     user_discount_stats := [];
     inventory := [apple_lot];
     customers := [{| customer_id := 1 |}];
     product_lcas := [] |}.

(** A hundred apples with no freshness left, in a store without any
    customer. *)
Definition spoiled_lot : FruitInventory :=
  {| inv_id := 8;
     store_id := 1;
     fruit_type := "apple";
     quantity := 100;
     current_price := 2;
     original_price := 3;
     freshness := Some 0 |}.

Definition unattended_db : Db :=
  {| MODELS_AVAILABLE := true;
     price_curves := [Sample.apple_curve];
     user_discount_stats := [];
     inventory := [spoiled_lot];
     customers := [];
     product_lcas := [] |}.

(** A policy that discounts linearly up to 100%, and one whose power is so
    negative that [0.5 ** alpha] is no float. *)
Definition full_discount : PolicyParams := {| dmax := 1; alpha := 1 |}.
Definition steep_policy : PolicyParams := {| dmax := 3 / 4; alpha := -2000 |}.

End SampleStore.


(** ** Proof automation *)

(** Decides the comparisons of a closed real expression one after another,
    innermost first. *)
Ltac no_decision t :=
  lazymatch t with
  | context [Rle_dec _ _] => fail
  | context [Rlt_dec _ _] => fail
  | _ => idtac
  end.

Ltac decide_reals :=
  repeat match goal with
         | |- context [Rlt_dec ?a ?b] =>
             no_decision a; no_decision b; destruct (Rlt_dec a b); try lra
         | |- context [Rle_dec ?a ?b] =>
             no_decision a; no_decision b; destruct (Rle_dec a b); try lra
         end.

(** Decides the integer comparisons of an array entry one after another. *)
Ltac decide_nats :=
  repeat match goal with
         | |- context [Nat.eqb ?a ?b] => destruct (Nat.eqb_spec a b)
         | |- context [Nat.ltb ?a ?b] => destruct (Nat.ltb_spec a b)
         | |- context [Nat.leb ?a ?b] => destruct (Nat.leb_spec a b)
         end;
  cbn [andb orb negb]; try lia; try lra; try reflexivity.

(** Unfolds the blended probability on sample data down to real arithmetic. *)
Ltac evaluate_blend :=
  unfold blend15, p_buy_user_beta, matching_stats, p_buy_pop_interp;
  cbn; decide_reals; cbn; try lra.

(** * Properties *)

(** ** Discount curve *)

Section Discount.

Lemma Rpower_le_1 (x p : R) : 0 < x <= 1 -> 0 <= p -> Rpower x p <= 1.
Proof.
  intros [Hx0 Hx1] Hp.
  assert (E : Rpower 1 p = 1)
    by (unfold Rpower; now rewrite ln_1, Rmult_0_r, exp_0).
  rewrite <- E. apply Rle_Rpower_l; lra.
Qed.

Lemma Rpower_pos (x p : R) : 0 < Rpower x p.
Proof. unfold Rpower. apply exp_pos. Qed.

Lemma Rpower_1_base (p : R) : Rpower 1 p = 1.
Proof. unfold Rpower. now rewrite ln_1, Rmult_0_r, exp_0. Qed.

(** The largest float lies between 2 and [2 ** 1024]. *)
Lemma float_max_ge_2 : 2 <= float_max.
Proof.
  unfold float_max.
  assert (H52 : 1 <= 2 ^ 52) by (apply pow_R1_Rle; lra).
  assert (Hinv : / 2 ^ 52 <= 1).
  { rewrite <- Rinv_1. apply Rinv_le_contravar; lra. }
  assert (H1022 : 1 <= 2 ^ 1022) by (apply pow_R1_Rle; lra).
  change (2 ^ 1023) with (2 * 2 ^ 1022).
  set (a := 2 ^ 1022) in *. set (b := / 2 ^ 52) in *. clearbody a b. nra.
Qed.

Lemma float_max_lt : float_max < 2 ^ 1024.
Proof.
  unfold float_max. change (2 ^ 1024) with (2 * 2 ^ 1023).
  assert (Hi : 0 < / 2 ^ 52) by (apply Rinv_0_lt_compat, pow_lt; lra).
  assert (Hp : 0 < 2 ^ 1023) by (apply pow_lt; lra).
  set (a := 2 ^ 1023) in *. set (b := / 2 ^ 52) in *. clearbody a b. nra.
Qed.

(** [0.5 ** -2000] is [2 ** 2000], beyond the largest float. *)
Lemma half_power_overflows : float_max < Rpower (1 / 2) (-2000).
Proof.
  replace (-2000) with (- INR 2000)
    by (rewrite INR_IZR_INZ, <- opp_IZR; reflexivity).
  rewrite Rpower_Ropp, Rpower_pow by lra.
  replace (1 / 2) with (/ 2) by lra.
  rewrite pow_inv, Rinv_inv.
  apply Rlt_le_trans with (2 ^ 1024); [apply float_max_lt|].
  apply Rle_pow; [lra|lia].
Qed.

(** A base in [(0,1]] under a non-negative exponent stays within the float
    range. *)
Lemma Rpower_unit_in_range (x p : R) :
  0 < x <= 1 -> 0 <= p -> Rpower x p <= float_max.
Proof.
  intros Hx Hp. pose proof (Rpower_le_1 x p Hx Hp). pose proof float_max_ge_2.
  lra.
Qed.

(** A positive base gives the power when that is a float, and an
    [OverflowError] when it is not. *)
Lemma pow_positive_base (x p : R) :
  0 < x -> Rpower x p <= float_max -> pow x p = Ok (Rpower x p).
Proof.
  intros Hx Hr. unfold pow. destruct (Req_dec_T x 0); [lra|].
  destruct (Rlt_dec float_max (Rpower x p)); [lra|reflexivity].
Qed.

Lemma pow_overflow (x p : R) :
  0 < x -> float_max < Rpower x p -> pow x p = Raise OverflowError.
Proof.
  intros Hx Hr. unfold pow. destruct (Req_dec_T x 0); [lra|].
  destruct (Rlt_dec float_max (Rpower x p)); [reflexivity|lra].
Qed.

(** On [[0,1]] and for a positive exponent the power never raises, stays in
    [[0,1]] and is monotone in its base. *)
Lemma pow_unit_interval (x p : R) :
  0 <= x <= 1 -> 0 < p -> exists y, pow x p = Ok y /\ 0 <= y <= 1.
Proof.
  intros [Hx0 Hx1] Hp.
  destruct (Req_dec_T x 0) as [->|Hnz].
  - unfold pow. destruct (Req_dec_T 0 0); [|lra].
    destruct (Rlt_dec 0 p); [|lra]. exists 0. split; [reflexivity|lra].
  - exists (Rpower x p). split.
    + apply pow_positive_base; [lra|]. apply Rpower_unit_in_range; lra.
    + split; [left; apply Rpower_pos|apply Rpower_le_1; lra].
Qed.

Lemma pow_monotone (x1 x2 p y1 y2 : R) :
  0 <= x1 -> x1 <= x2 -> 0 < p ->
  pow x1 p = Ok y1 -> pow x2 p = Ok y2 -> y1 <= y2.
Proof.
  intros H0 H12 Hp. unfold pow.
  destruct (Req_dec_T x1 0) as [->|Hnz1], (Req_dec_T x2 0) as [->|Hnz2];
    destruct (Rlt_dec 0 p); try lra;
    repeat match goal with
           | |- context [Rlt_dec float_max ?v] => destruct (Rlt_dec float_max v)
           end;
    intros E1 E2; try discriminate; inversion E1; inversion E2; subst.
  - lra.
  - left. apply Rpower_pos.
  - apply Rle_Rpower_l; lra.
Qed.

Lemma calculate_discount_in_range (f m p : R) :
  0 <= f <= 1 ->
  calculate_discount_from_freshness f m p =
    (fp <- pow f p ;;
     Ok (Rmax 0 (Rmin (normalize_max_discount m)
                      (normalize_max_discount m * (1 - fp))))).
Proof.
  intros [H0 H1]. unfold calculate_discount_from_freshness, normalize_max_discount.
  destruct (Rle_dec 0 f); [|lra]. destruct (Rle_dec f 1); [|lra]. reflexivity.
Qed.

Lemma clamp_bounds (m d : R) : 0 <= m -> 0 <= Rmax 0 (Rmin m d) <= m.
Proof.
  intros Hm. unfold Rmax, Rmin.
  destruct (Rle_dec m d); destruct (Rle_dec 0 _); lra.
Qed.

Lemma clamp_monotone (m d1 d2 : R) :
  d1 <= d2 -> Rmax 0 (Rmin m d1) <= Rmax 0 (Rmin m d2).
Proof.
  intros H. unfold Rmax, Rmin.
  destruct (Rle_dec m d1), (Rle_dec m d2);
    repeat match goal with |- context [Rle_dec ?a ?b] => destruct (Rle_dec a b) end;
    lra.
Qed.

Lemma normalize_max_discount_bounds (m : R) :
  0 < m -> 0 < normalize_max_discount m <= m.
Proof.
  intros Hm. unfold normalize_max_discount. destruct (Rlt_dec 1 m); lra.
Qed.

(** C7: for freshness values [f1 <= f2] in [[0,1]], a maximum discount
    [m > 0] and a power [p > 0], the discount curve returns a value at both,
    the one at [f2] is not above the one at [f1], and both lie in [[0, m]]. *)
Theorem calculate_discount_nonincreasing_bounded (f1 f2 m p : R) :
  0 <= f1 -> f1 <= f2 -> f2 <= 1 -> 0 < m -> 0 < p ->
  exists d1 d2,
    calculate_discount_from_freshness f1 m p = Ok d1 /\
    calculate_discount_from_freshness f2 m p = Ok d2 /\
    d2 <= d1 /\ 0 <= d1 <= m /\ 0 <= d2 <= m.
Proof.
  intros Hf1 H12 Hf2 Hm Hp.
  destruct (pow_unit_interval f1 p) as [y1 [E1 B1]]; [lra|assumption|].
  destruct (pow_unit_interval f2 p) as [y2 [E2 B2]]; [lra|assumption|].
  assert (Hy : y1 <= y2) by (eapply pow_monotone; eauto).
  destruct (normalize_max_discount_bounds m Hm) as [Hn0 Hnm].
  rewrite !calculate_discount_in_range by lra.
  rewrite E1, E2. simpl.
  set (m' := normalize_max_discount m) in *.
  exists (Rmax 0 (Rmin m' (m' * (1 - y1)))), (Rmax 0 (Rmin m' (m' * (1 - y2)))).
  split; [reflexivity|]. split; [reflexivity|].
  split; [apply clamp_monotone; nra|].
  pose proof (clamp_bounds m' (m' * (1 - y1))).
  pose proof (clamp_bounds m' (m' * (1 - y2))).
  lra.
Qed.

Lemma calculate_discount_nonincreasing_bounded_witness :
  exists d1 d2,
    calculate_discount_from_freshness (1 / 4) (3 / 4) (3 / 2) = Ok d1 /\
    calculate_discount_from_freshness (1 / 2) (3 / 4) (3 / 2) = Ok d2 /\
    d2 <= d1 /\ 0 <= d1 <= 3 / 4 /\ 0 <= d2 <= 3 / 4.
Proof.
  apply (calculate_discount_nonincreasing_bounded (1 / 4) (1 / 2) (3 / 4) (3 / 2));
    lra.
Defined.

End Discount.

(** ** Population model *)

Section Population.

Lemma last_cons {A : Type} (a d : A) (l : list A) : last (a :: l) d = last l a.
Proof.
  revert a d. induction l as [|b l IH]; intros a d; [reflexivity|].
  change (last (a :: b :: l) d) with (last (b :: l) d).
  rewrite IH. symmetry. apply IH.
Qed.

Lemma nondecreasing_tail (x : R) (l : list R) :
  nondecreasing (x :: l) -> nondecreasing l.
Proof. destruct l; simpl; tauto. Qed.

Lemma nondecreasing_le_last (y0 : R) (ys : list R) :
  nondecreasing (y0 :: ys) -> y0 <= last ys y0.
Proof.
  revert y0. induction ys as [|y1 ys IH]; intros y0 H; [simpl; lra|].
  cbn [nondecreasing] in H. destruct H as [H01 H].
  specialize (IH y1 H). rewrite last_cons. lra.
Qed.

Lemma segment_bounds (x0 x1 y0 y1 x : R) :
  x0 <= x < x1 -> y0 <= y1 ->
  y0 <= (y1 - y0) / (x1 - x0) * (x - x0) + y0 <= y1.
Proof.
  intros [Hx0 Hx1] Hy.
  assert (Hs : 0 <= (y1 - y0) / (x1 - x0))
    by (apply Rmult_le_pos; [lra|left; apply Rinv_0_lt_compat; lra]).
  assert (He : (y1 - y0) / (x1 - x0) * (x1 - x0) = y1 - y0) by (field; lra).
  set (s := (y1 - y0) / (x1 - x0)) in *. nra.
Qed.

Lemma segment_monotone (x0 x1 y0 y1 a b : R) :
  x0 <= a -> a <= b -> b < x1 -> y0 <= y1 ->
  (y1 - y0) / (x1 - x0) * (a - x0) + y0 <= (y1 - y0) / (x1 - x0) * (b - x0) + y0.
Proof.
  intros Ha Hab Hb Hy.
  assert (Hs : 0 <= (y1 - y0) / (x1 - x0))
    by (apply Rmult_le_pos; [lra|left; apply Rinv_0_lt_compat; lra]).
  set (s := (y1 - y0) / (x1 - x0)) in *. nra.
Qed.

Lemma interp_segments_bounds (xs ys : list R) :
  forall x0 y0 x,
    nondecreasing (x0 :: xs) -> nondecreasing (y0 :: ys) -> x0 <= x ->
    y0 <= interp_segments x x0 y0 xs ys <= last ys y0.
Proof.
  revert ys. induction xs as [|x1 xs IH]; intros ys x0 y0 x Hx Hy H0.
  - pose proof (nondecreasing_le_last y0 ys Hy). cbn [interp_segments]. lra.
  - destruct ys as [|y1 ys].
    + simpl. lra.
    + assert (Hy1 : y1 <= last ys y1)
        by (apply nondecreasing_le_last; eapply nondecreasing_tail; eauto).
      simpl in Hx, Hy. destruct Hx as [Hx01 Hx], Hy as [Hy01 Hy].
      rewrite last_cons.
      cbn [interp_segments]. destruct (Rlt_dec x x1) as [Hlt|Hge].
      * pose proof (segment_bounds x0 x1 y0 y1 x). lra.
      * specialize (IH ys x1 y1 x Hx Hy). lra.
Qed.

Lemma interp_segments_monotone (xs ys : list R) :
  forall x0 y0 a b,
    nondecreasing (x0 :: xs) -> nondecreasing (y0 :: ys) ->
    x0 <= a -> a <= b ->
    interp_segments a x0 y0 xs ys <= interp_segments b x0 y0 xs ys.
Proof.
  revert ys. induction xs as [|x1 xs IH]; intros ys x0 y0 a b Hx Hy Ha Hab.
  - simpl. destruct ys; lra.
  - destruct ys as [|y1 ys]; [simpl; lra|].
    pose proof Hx as Hx'. pose proof Hy as Hy'.
    simpl in Hx, Hy. destruct Hx as [Hx01 Hx], Hy as [Hy01 Hy].
    cbn [interp_segments].
    destruct (Rlt_dec a x1) as [Ha1|Ha1], (Rlt_dec b x1) as [Hb1|Hb1].
    + apply segment_monotone; lra.
    + pose proof (segment_bounds x0 x1 y0 y1 a).
      pose proof (interp_segments_bounds xs ys x1 y1 b Hx Hy). lra.
    + lra.
    + apply IH; auto; lra.
Qed.

(** [np.interp] with the boundary ordinates as [left] and [right] is
    monotone on a curve whose abscissas and ordinates are non-decreasing. *)
Lemma np_interp_monotone (x0 y0 : R) (xs ys : list R) (a b : R) :
  nondecreasing (x0 :: xs) -> nondecreasing (y0 :: ys) -> a <= b ->
  np_interp a (x0 :: xs) (y0 :: ys) y0 (last ys y0)
  <= np_interp b (x0 :: xs) (y0 :: ys) y0 (last ys y0).
Proof.
  intros Hx Hy Hab. unfold np_interp. rewrite last_cons.
  pose proof (nondecreasing_le_last y0 ys Hy) as Hlast.
  destruct (Rlt_dec a x0) as [Ha|Ha], (Rlt_dec b x0) as [Hb|Hb]; try lra.
  - destruct (Rlt_dec (last xs x0) b); [lra|].
    pose proof (interp_segments_bounds xs ys x0 y0 b Hx Hy). lra.
  - destruct (Rlt_dec (last xs x0) a), (Rlt_dec (last xs x0) b); try lra.
    + pose proof (interp_segments_bounds xs ys x0 y0 a Hx Hy). lra.
    + apply interp_segments_monotone; auto; lra.
Qed.

Lemma np_interp_bounds (x0 y0 : R) (xs ys : list R) (x : R) :
  nondecreasing (x0 :: xs) -> nondecreasing (y0 :: ys) ->
  y0 <= np_interp x (x0 :: xs) (y0 :: ys) y0 (last ys y0) <= last ys y0.
Proof.
  intros Hx Hy. unfold np_interp. rewrite last_cons.
  pose proof (nondecreasing_le_last y0 ys Hy) as Hlast.
  destruct (Rlt_dec x x0); [lra|].
  destruct (Rlt_dec (last xs x0) x); [lra|].
  apply interp_segments_bounds; auto; lra.
Qed.

Lemma linear_fallback_monotone (a b : R) :
  a <= b -> linear_fallback a <= linear_fallback b.
Proof.
  intros H. unfold linear_fallback, Rmin.
  repeat match goal with |- context [Rle_dec ?u ?v] => destruct (Rle_dec u v) end;
    lra.
Qed.


(** What the model computes on each kind of stored data. *)
Lemma p_buy_pop_interp_unavailable (db : Db) (d : R) (category : string) :
  MODELS_AVAILABLE db = false ->
  p_buy_pop_interp db d category = linear_fallback d.
Proof. intros H. unfold p_buy_pop_interp. now rewrite H. Qed.

Lemma p_buy_pop_interp_absent (db : Db) (d : R) (category : string) :
  query_price_curve db category = None ->
  p_buy_pop_interp db d category = linear_fallback d.
Proof.
  intros H. unfold p_buy_pop_interp. rewrite H. now destruct (MODELS_AVAILABLE db).
Qed.

Lemma p_buy_pop_interp_malformed (db : Db) (d : R) (category : string)
  (c : PriceCurve) :
  MODELS_AVAILABLE db = true -> query_price_curve db category = Some c ->
  malformed c -> p_buy_pop_interp db d category = 5 / 100.
Proof.
  intros Hm Hq Hc. unfold p_buy_pop_interp. rewrite Hm, Hq. simpl.
  destruct Hc as [E|[E|E]].
  - now rewrite E.
  - rewrite E. simpl. now rewrite orb_true_r.
  - apply Nat.eqb_neq in E. rewrite E. simpl. now rewrite !orb_true_r.
Qed.

Lemma p_buy_pop_interp_well_formed (db : Db) (d : R) (category : string)
  (c : PriceCurve) :
  MODELS_AVAILABLE db = true -> query_price_curve db category = Some c ->
  well_formed c ->
  exists x0 xs y0 ys,
    x_discount_bins c = x0 :: xs /\ y_pbuy c = y0 :: ys /\
    p_buy_pop_interp db d category
    = np_interp d (x0 :: xs) (y0 :: ys) y0 (last ys y0).
Proof.
  intros Hm Hq [Hne Hlen]. unfold p_buy_pop_interp. rewrite Hm, Hq. simpl.
  destruct (x_discount_bins c) as [|x0 xs]; [congruence|].
  destruct (y_pbuy c) as [|y0 ys]; [discriminate|].
  exists x0, xs, y0, ys. split; [reflexivity|]. split; [reflexivity|].
  apply Nat.eqb_eq in Hlen. rewrite Hlen. cbn [is_empty orb negb hd].
  now rewrite last_cons.
Qed.

Lemma malformed_or_well_formed (c : PriceCurve) : malformed c \/ well_formed c.
Proof.
  unfold malformed, well_formed.
  destruct (x_discount_bins c) as [|x0 xs]; [now left; left|].
  destruct (Nat.eq_dec (List.length (x0 :: xs)) (List.length (y_pbuy c))).
  - right. split; [discriminate|assumption].
  - left. right. now right.
Qed.

(** On monotone stored data the population model is monotone, and it stays
    at or below 1 when the stored probabilities do. *)
Lemma p_buy_pop_interp_monotone (db : Db) (category : string) :
  (forall c, MODELS_AVAILABLE db = true ->
             query_price_curve db category = Some c -> well_formed c ->
             nondecreasing (x_discount_bins c) /\ nondecreasing (y_pbuy c)) ->
  forall d1 d2, d1 <= d2 ->
    p_buy_pop_interp db d1 category <= p_buy_pop_interp db d2 category.
Proof.
  intros Hcurve d1 d2 Hd.
  destruct (MODELS_AVAILABLE db) eqn:Hm.
  2:{ rewrite !p_buy_pop_interp_unavailable by assumption.
      now apply linear_fallback_monotone. }
  destruct (query_price_curve db category) as [c|] eqn:Hq.
  2:{ rewrite !p_buy_pop_interp_absent by assumption.
      now apply linear_fallback_monotone. }
  destruct (malformed_or_well_formed c) as [Hc|Hc].
  - rewrite !(p_buy_pop_interp_malformed db _ category c) by assumption. lra.
  - destruct (Hcurve c eq_refl eq_refl Hc) as [Hx Hy].
    destruct (p_buy_pop_interp_well_formed db d1 category c Hm Hq Hc)
      as (x0 & xs & y0 & ys & Ex & Ey & E1).
    destruct (p_buy_pop_interp_well_formed db d2 category c Hm Hq Hc)
      as (x0' & xs' & y0' & ys' & Ex' & Ey' & E2).
    rewrite Ex in Ex', Hx. rewrite Ey in Ey', Hy.
    inversion Ex'; inversion Ey'; subst x0' xs' y0' ys'.
    rewrite E1, E2. now apply np_interp_monotone.
Qed.



End Population.


Section PopulationClaims.

Import Sample.

(** C1, as stated, fails: on a stored curve without control points the
    model answers 0.05 at a 50% discount, where the linear approximation
    is 0.475. *)
Lemma p_buy_pop_interp_malformed_counterexample :
  query_price_curve (db_of_curve empty_curve) "apple" = Some empty_curve /\
  malformed empty_curve /\
  p_buy_pop_interp (db_of_curve empty_curve) 50 "apple" = 5 / 100 /\
  linear_fallback 50 = 475 / 1000 /\
  p_buy_pop_interp (db_of_curve empty_curve) 50 "apple" <> linear_fallback 50.
Proof.
  assert (Hq : query_price_curve (db_of_curve empty_curve) "apple"
               = Some empty_curve) by reflexivity.
  assert (Hm : malformed empty_curve) by (left; reflexivity).
  assert (Hp : p_buy_pop_interp (db_of_curve empty_curve) 50 "apple" = 5 / 100)
    by (eapply p_buy_pop_interp_malformed; eauto).
  assert (Hl : linear_fallback 50 = 475 / 1000)
    by (unfold linear_fallback, Rmin; decide_reals).
  repeat split; auto. rewrite Hp, Hl. lra.
Qed.

(** C1, amended: for every category whose stored curve is malformed (no
    bins, no probabilities, or unequal numbers of them) and every discount,
    the population model returns the constant 0.05; the linear approximation
    is what it returns when the category has no stored curve. *)
Theorem p_buy_pop_interp_malformed_default (db : Db) (category : string)
  (discount_pct : R) :
  MODELS_AVAILABLE db = true ->
  (forall c, query_price_curve db category = Some c -> malformed c ->
             p_buy_pop_interp db discount_pct category = 5 / 100) /\
  (query_price_curve db category = None ->
   p_buy_pop_interp db discount_pct category
   = Rmin (9 / 10) (5 / 100 + (discount_pct / 100) * (85 / 100))).
Proof.
  intros Hm. split.
  - intros c Hq Hc. now apply (p_buy_pop_interp_malformed db _ category c).
  - intros Hq. now apply p_buy_pop_interp_absent.
Qed.

Lemma p_buy_pop_interp_malformed_default_witness :
  p_buy_pop_interp (db_of_curve empty_curve) 50 "apple" = 5 / 100 /\
  p_buy_pop_interp (db_of_curve empty_curve) 50 "pear"
  = Rmin (9 / 10) (5 / 100 + (50 / 100) * (85 / 100)).
Proof.
  split.
  - apply (proj1 (p_buy_pop_interp_malformed_default
                    (db_of_curve empty_curve) "apple" 50 eq_refl) empty_curve).
    + reflexivity.
    + left. reflexivity.
  - apply (proj2 (p_buy_pop_interp_malformed_default
                    (db_of_curve empty_curve) "pear" 50 eq_refl)).
    reflexivity.
Defined.

(** C6, as stated, fails: on a stored curve whose probabilities fall, the
    model answers 0.9 at no discount and 0.1 at a 50% discount. *)
Lemma p_buy_pop_interp_monotone_counterexample :
  nondecreasing (x_discount_bins falling_curve) /\
  p_buy_pop_interp (db_of_curve falling_curve) 0 "apple" = 9 / 10 /\
  p_buy_pop_interp (db_of_curve falling_curve) 50 "apple" = 1 / 10 /\
  ~ (0 <= 50 ->
     p_buy_pop_interp (db_of_curve falling_curve) 0 "apple"
     <= p_buy_pop_interp (db_of_curve falling_curve) 50 "apple").
Proof.
  assert (H0 : p_buy_pop_interp (db_of_curve falling_curve) 0 "apple" = 9 / 10).
  { unfold p_buy_pop_interp. cbn. decide_reals. }
  assert (H50 : p_buy_pop_interp (db_of_curve falling_curve) 50 "apple" = 1 / 10).
  { unfold p_buy_pop_interp. cbn. decide_reals. }
  repeat split; auto.
  - simpl. lra.
  - rewrite H0, H50. intros H. lra.
Qed.

(** C6, amended: for every category whose stored curve, when it is well
    formed, has non-decreasing bins, the population model returns the first
    probability below the first bin and the last probability above the last
    bin; and when the curve's probabilities are non-decreasing too, the model
    is non-decreasing in the discount. *)
Theorem p_buy_pop_interp_monotone_clamped (db : Db) (category : string) :
  (forall c, MODELS_AVAILABLE db = true ->
             query_price_curve db category = Some c -> well_formed c ->
             nondecreasing (x_discount_bins c)) ->
  ((forall c, MODELS_AVAILABLE db = true ->
              query_price_curve db category = Some c -> well_formed c ->
              nondecreasing (y_pbuy c)) ->
   forall d1 d2, d1 <= d2 ->
     p_buy_pop_interp db d1 category <= p_buy_pop_interp db d2 category) /\
  (forall c d, MODELS_AVAILABLE db = true ->
               query_price_curve db category = Some c -> well_formed c ->
     (d < hd 0 (x_discount_bins c) ->
      p_buy_pop_interp db d category = hd 0 (y_pbuy c)) /\
     (last (x_discount_bins c) 0 < d ->
      p_buy_pop_interp db d category = last (y_pbuy c) 0)).
Proof.
  intros Hbins. split.
  - intros Hprobs. apply p_buy_pop_interp_monotone.
    intros c Hm Hq Hc. split; [now apply Hbins|now apply Hprobs].
  - intros c d Hm Hq Hc.
    pose proof (Hbins c Hm Hq Hc) as Hx.
    destruct (p_buy_pop_interp_well_formed db d category c Hm Hq Hc)
      as (x0 & xs & y0 & ys & Ex & Ey & E).
    rewrite E, Ex, Ey. rewrite Ex in Hx. rewrite !last_cons. cbn [hd].
    pose proof (nondecreasing_le_last x0 xs Hx) as Hlast.
    unfold np_interp. rewrite last_cons. split; intros Hd.
    + destruct (Rlt_dec d x0); [reflexivity|lra].
    + destruct (Rlt_dec d x0); [lra|].
      destruct (Rlt_dec (last xs x0) d); [reflexivity|lra].
Qed.

Lemma p_buy_pop_interp_monotone_clamped_witness :
  (forall d1 d2, d1 <= d2 ->
     p_buy_pop_interp (db_of_curve apple_curve) d1 "apple"
     <= p_buy_pop_interp (db_of_curve apple_curve) d2 "apple") /\
  (forall c d, MODELS_AVAILABLE (db_of_curve apple_curve) = true ->
               query_price_curve (db_of_curve apple_curve) "apple" = Some c ->
               well_formed c ->
     (d < hd 0 (x_discount_bins c) ->
      p_buy_pop_interp (db_of_curve apple_curve) d "apple" = hd 0 (y_pbuy c)) /\
     (last (x_discount_bins c) 0 < d ->
      p_buy_pop_interp (db_of_curve apple_curve) d "apple" = last (y_pbuy c) 0)).
Proof.
  destruct (p_buy_pop_interp_monotone_clamped (db_of_curve apple_curve) "apple")
    as [Hmono Hclamp].
  - intros c _ Hq _. inversion Hq; subst c. simpl. lra.
  - split; [|exact Hclamp].
    apply Hmono. intros c _ Hq _. inversion Hq; subst c. simpl. lra.
Defined.

End PopulationClaims.

(** ** Personalized and blended models *)

Section Blend.

Import Sample SampleStats.

Lemma p_buy_user_beta_available (db : Db) (user_id : Z) (product_name : string)
  (d : R) :
  MODELS_AVAILABLE db = true ->
  let n := matching_trials db user_id product_name d in
  p_buy_user_beta db user_id product_name d =
    if Nat.eqb n 0 then (0, 0%nat)
    else ((INR (matching_buys db user_id product_name d) + 1) / (INR n + 2), n).
Proof. intros H. unfold p_buy_user_beta. now rewrite H. Qed.

(** C5: with [n] the trial count [p_buy_user_beta] reports (the summed
    trials of the matching rows when the tables are available), the blend
    is the population probability itself when [n = 0], and
    [w * p_user + (1 - w) * p_pop] with [w = n / (n + m)] when [n > 0]. *)
Theorem p_buy_blend_credibility (db : Db) (user_id : Z)
  (product_name category : string) (discount_pct : R) (m : Z) :
  let p_pop := p_buy_pop_interp db discount_pct category in
  let p_user := fst (p_buy_user_beta db user_id product_name discount_pct) in
  let n := snd (p_buy_user_beta db user_id product_name discount_pct) in
  let w := INR n / (INR n + IZR m) in
  (MODELS_AVAILABLE db = true ->
   n = matching_trials db user_id product_name discount_pct) /\
  (n = 0%nat ->
   p_buy_blend db user_id product_name category discount_pct m = Ok p_pop) /\
  ((0 < n)%nat -> (Z.of_nat n + m <> 0)%Z ->
   p_buy_blend db user_id product_name category discount_pct m
   = Ok (w * p_user + (1 - w) * p_pop)).
Proof.
  cbv zeta. split; [|split].
  - intros Hm. rewrite p_buy_user_beta_available by assumption. cbv zeta.
    destruct (Nat.eqb _ 0) eqn:E; [apply Nat.eqb_eq in E|]; simpl; congruence.
  - intros Hn. unfold p_buy_blend.
    destruct (p_buy_user_beta db user_id product_name discount_pct) as [pu n].
    simpl in Hn. subst n. reflexivity.
  - intros Hn Hnm. unfold p_buy_blend.
    destruct (p_buy_user_beta db user_id product_name discount_pct) as [pu n].
    simpl in *. destruct (Nat.eqb n 0) eqn:E; [apply Nat.eqb_eq in E; lia|].
    destruct (Z.eqb (Z.of_nat n + m) 0) eqn:E'; [apply Z.eqb_eq in E'; lia|].
    now rewrite plus_IZR, <- INR_IZR_INZ.
Qed.

Lemma p_buy_blend_credibility_witness :
  p_buy_blend (db_of_curve apple_curve) 1 "apple" "apple" 50 15
  = Ok (p_buy_pop_interp (db_of_curve apple_curve) 50 "apple") /\
  p_buy_blend db_with_stats 1 "apple" "apple" 50 15
  = Ok (INR (snd (p_buy_user_beta db_with_stats 1 "apple" 50))
        / (INR (snd (p_buy_user_beta db_with_stats 1 "apple" 50)) + IZR 15)
        * fst (p_buy_user_beta db_with_stats 1 "apple" 50)
        + (1 - INR (snd (p_buy_user_beta db_with_stats 1 "apple" 50))
               / (INR (snd (p_buy_user_beta db_with_stats 1 "apple" 50)) + IZR 15))
          * p_buy_pop_interp db_with_stats 50 "apple").
Proof.
  assert (Hn : snd (p_buy_user_beta db_with_stats 1 "apple" 50) = 10%nat).
  { unfold p_buy_user_beta, matching_stats. cbn. decide_reals. reflexivity. }
  split.
  - apply (proj1 (proj2 (p_buy_blend_credibility
                           (db_of_curve apple_curve) 1 "apple" "apple" 50 15))).
    reflexivity.
  - apply (proj2 (proj2 (p_buy_blend_credibility
                           db_with_stats 1 "apple" "apple" 50 15)));
      rewrite Hn; lia.
Defined.

End Blend.

(** ** Sums, products and the arrays of the chain *)

Section Sums.

Lemma rsum_ext (n : nat) (f g : nat -> R) :
  (forall l, (l < n)%nat -> f l = g l) -> rsum n f = rsum n g.
Proof.
  induction n as [|n IH]; intros H; simpl; [reflexivity|].
  rewrite IH by (intros; apply H; lia). rewrite (H n) by lia. reflexivity.
Qed.

Lemma rsum_zero (n : nat) (f : nat -> R) :
  (forall l, (l < n)%nat -> f l = 0) -> rsum n f = 0.
Proof.
  induction n as [|n IH]; intros H; simpl; [reflexivity|].
  rewrite IH by (intros; apply H; lia). rewrite (H n) by lia. lra.
Qed.

Lemma rsum_single (n a : nat) (f : nat -> R) :
  (a < n)%nat -> (forall l, (l < n)%nat -> l <> a -> f l = 0) ->
  rsum n f = f a.
Proof.
  induction n as [|n IH]; intros Ha H; [lia|]. simpl.
  destruct (Nat.eq_dec a n) as [->|Hne].
  - rewrite rsum_zero by (intros; apply H; lia). lra.
  - rewrite IH by (try lia; intros; apply H; lia).
    rewrite (H n) by lia. lra.
Qed.

Lemma rsum_minus (n : nat) (f g : nat -> R) :
  rsum n (fun l => f l - g l) = rsum n f - rsum n g.
Proof. induction n as [|n IH]; simpl; [lra|]. rewrite IH. lra. Qed.

Lemma rsum_scale_r (n : nat) (f : nat -> R) (c : R) :
  rsum n (fun l => f l * c) = rsum n f * c.
Proof. induction n as [|n IH]; simpl; [lra|]. rewrite IH. lra. Qed.

Lemma rsum_scale_l (n : nat) (f : nat -> R) (c : R) :
  rsum n (fun l => c * f l) = c * rsum n f.
Proof. induction n as [|n IH]; simpl; [lra|]. rewrite IH. lra. Qed.

Lemma rsum_plus (n : nat) (f g : nat -> R) :
  rsum n (fun l => f l + g l) = rsum n f + rsum n g.
Proof. induction n as [|n IH]; simpl; [lra|]. rewrite IH. lra. Qed.

Lemma rsum_swap (n m : nat) (f : nat -> nat -> R) :
  rsum n (fun i => rsum m (fun j => f i j))
  = rsum m (fun j => rsum n (fun i => f i j)).
Proof.
  induction n as [|n IH]; simpl.
  - symmetry. apply rsum_zero. reflexivity.
  - rewrite IH, <- rsum_plus. reflexivity.
Qed.

Lemma rsum_eye_l (n i : nat) (f : nat -> R) :
  (i < n)%nat -> rsum n (fun l => eye i l * f l) = f i.
Proof.
  intros Hi. rewrite (rsum_single n i).
  - unfold eye. rewrite Nat.eqb_refl. lra.
  - assumption.
  - intros l _ Hl. unfold eye.
    destruct (Nat.eqb_spec i l); [congruence|lra].
Qed.

Lemma rsum_eye_r (n j : nat) (f : nat -> R) :
  (j < n)%nat -> rsum n (fun l => f l * eye l j) = f j.
Proof.
  intros Hj. rewrite (rsum_single n j).
  - unfold eye. rewrite Nat.eqb_refl. lra.
  - assumption.
  - intros l _ Hl. unfold eye.
    destruct (Nat.eqb_spec l j); [congruence|lra].
Qed.

Lemma rprod_snoc (a len : nat) (f : nat -> R) :
  rprod a (S len) f = rprod a len f * f (a + len)%nat.
Proof.
  revert a. induction len as [|len IH]; intros a.
  - simpl. rewrite Nat.add_0_r. lra.
  - change (rprod a (S (S len)) f) with (f a * rprod (S a) (S len) f).
    rewrite IH. simpl. replace (a + S len)%nat with (S (a + len)) by lia. lra.
Qed.



End Sums.

(** ** The transient matrix of the chain *)

Section Determinant.

Lemma minor_0_0 (A : ndarray) (r c : nat) : minor A 0 0 r c = A (S r) (S c).
Proof. reflexivity. Qed.

(** A unit upper triangular matrix has determinant 1. *)
Lemma det_unit_upper_triangular (n : nat) :
  forall A, unit_upper_triangular n A -> det n A = 1.
Proof.
  induction n as [|n IH]; intros A [Hdiag Hlow]; [reflexivity|].
  change (det (S n) A)
    with (rsum (S n) (fun i => (-1) ^ i * A i O * det n (minor A i 0))).
  rewrite (rsum_single (S n) 0).
  - rewrite (Hdiag 0%nat) by lia. rewrite IH; [simpl; lra|].
    split.
    + intros i Hi. rewrite minor_0_0. apply Hdiag. lia.
    + intros i j Hi Hj. rewrite minor_0_0. apply Hlow; lia.
  - lia.
  - intros l Hl Hne. rewrite (Hlow l 0%nat) by lia. lra.
Qed.

Lemma linalg_inv_invertible (n : nat) (A : ndarray) :
  invertible n A -> exists N, linalg_inv n A = Some N /\ is_inverse n A N.
Proof.
  intros H. unfold linalg_inv.
  destruct (excluded_middle_informative (invertible n A)) as [H'|H'];
    [|contradiction].
  destruct (constructive_indefinite_description _ H') as [N HN].
  exists N. split; [reflexivity|assumption].
Qed.

Lemma linalg_inv_sound (n : nat) (A N : ndarray) :
  linalg_inv n A = Some N -> is_inverse n A N.
Proof.
  unfold linalg_inv.
  destruct (excluded_middle_informative (invertible n A)) as [H'|H'];
    [|discriminate].
  destruct (constructive_indefinite_description _ H') as [N' HN].
  simpl. intros E. inversion E. now subst.
Qed.

Lemma linalg_inv_singular (n : nat) (A : ndarray) :
  linalg_inv n A = None -> ~ invertible n A.
Proof.
  unfold linalg_inv.
  destruct (excluded_middle_informative (invertible n A)); [discriminate|auto].
Qed.

End Determinant.

Section Chain.

Variable n : nat.
Variable p : nat -> R.
Variables Qm Rm : ndarray.
Hypothesis HQ : forall i j, Qm i j = chain_Q n p i j.
Hypothesis HR : forall i j, Rm i j = chain_R n p i j.

Let q (k : nat) : R := 1 - p k.

Lemma chain_Q_row (g : nat -> R) (i : nat) :
  rsum n (fun l => Qm i l * g l)
  = if (S i <? n)%nat then q (S i) * g (S i) else 0.
Proof.
  destruct (Nat.ltb_spec (S i) n) as [Hi|Hi].
  - rewrite (rsum_single n (S i)).
    + rewrite HQ. unfold chain_Q.
      destruct (Nat.ltb_spec (S i) n); [|lia]. now rewrite Nat.eqb_refl.
    + assumption.
    + intros l _ Hl. rewrite HQ. unfold chain_Q.
      destruct (Nat.eqb_spec l (S i)); [congruence|].
      rewrite andb_false_r. lra.
  - apply rsum_zero. intros l _. rewrite HQ. unfold chain_Q.
    destruct (Nat.ltb_spec (S i) n); [lia|]. simpl. lra.
Qed.

Lemma chain_Q_col (g : nat -> R) (j : nat) :
  (j < n)%nat ->
  rsum n (fun l => g l * Qm l j)
  = if (1 <=? j)%nat then g (j - 1)%nat * q j else 0.
Proof.
  intros Hj. destruct (Nat.leb_spec 1 j) as [H1|H1].
  - rewrite (rsum_single n (j - 1)).
    + rewrite HQ. unfold chain_Q. replace (S (j - 1)) with j by lia.
      destruct (Nat.ltb_spec j n); [|lia]. now rewrite Nat.eqb_refl.
    + lia.
    + intros l _ Hl. rewrite HQ. unfold chain_Q.
      destruct (Nat.eqb_spec j (S l)); [lia|].
      rewrite andb_false_r. lra.
  - apply rsum_zero. intros l _. rewrite HQ. unfold chain_Q.
    destruct (Nat.eqb_spec j (S l)); [lia|].
    rewrite andb_false_r. lra.
Qed.

Lemma chain_N_diag (i : nat) : chain_N p i i = 1.
Proof.
  unfold chain_N. rewrite Nat.leb_refl, Nat.sub_diag. reflexivity.
Qed.

Lemma chain_N_below (i j : nat) : (j < i)%nat -> chain_N p i j = 0.
Proof.
  intros H. unfold chain_N. destruct (Nat.leb_spec i j); [lia|reflexivity].
Qed.

Lemma chain_N_first (i j : nat) :
  (i < j)%nat -> chain_N p i j = q (S i) * chain_N p (S i) j.
Proof.
  intros H. unfold chain_N.
  destruct (Nat.leb_spec i j); [|lia]. destruct (Nat.leb_spec (S i) j); [|lia].
  replace (j - i)%nat with (S (j - S i)) by lia. reflexivity.
Qed.

Lemma chain_N_last (i j : nat) :
  (i < j)%nat -> chain_N p i j = chain_N p i (j - 1)%nat * q j.
Proof.
  intros H. unfold chain_N.
  destruct (Nat.leb_spec i j); [|lia]. destruct (Nat.leb_spec i (j - 1)); [|lia].
  replace (j - i)%nat with (S (j - 1 - i)) by lia.
  rewrite rprod_snoc. replace (S i + (j - 1 - i))%nat with j by lia.
  reflexivity.
Qed.

(** [I - Q] is unit upper triangular with [-(1 - p k)] on the superdiagonal
    and zeros elsewhere. *)
Lemma chain_matrix_entries (i j : nat) :
  (i < n)%nat -> (j < n)%nat ->
  sub eye Qm i j =
    if (j =? i)%nat then 1
    else if (j =? S i)%nat then - (1 - p (S i))
    else 0.
Proof.
  intros Hi Hj. unfold sub, eye. rewrite HQ. unfold chain_Q.
  destruct (Nat.eqb_spec i j), (Nat.eqb_spec j i); try lia.
  - destruct (Nat.eqb_spec j (S i)); [lia|]. rewrite andb_false_r. lra.
  - destruct (Nat.eqb_spec j (S i)).
    + destruct (Nat.ltb_spec (S i) n); [simpl; lra|lia].
    + rewrite andb_false_r. lra.
Qed.

Lemma chain_unit_upper_triangular : unit_upper_triangular n (sub eye Qm).
Proof.
  split.
  - intros i Hi. rewrite chain_matrix_entries by assumption.
    now rewrite Nat.eqb_refl.
  - intros i j Hi Hj. rewrite chain_matrix_entries by lia.
    destruct (Nat.eqb_spec j i); [lia|].
    destruct (Nat.eqb_spec j (S i)); [lia|reflexivity].
Qed.

Lemma chain_det : det n (sub eye Qm) = 1.
Proof. apply det_unit_upper_triangular, chain_unit_upper_triangular. Qed.

Lemma chain_N_is_inverse : is_inverse n (sub eye Qm) (chain_N p).
Proof.
  split; intros i j Hi Hj; unfold matmul, sub.
  - rewrite (rsum_ext n _ (fun l => eye i l * chain_N p l j
                                    - Qm i l * chain_N p l j))
      by (intros; lra).
    rewrite rsum_minus, rsum_eye_l, chain_Q_row by assumption.
    unfold eye. destruct (Nat.eqb_spec i j) as [->|Hne].
    + rewrite chain_N_diag, chain_N_below by lia.
      destruct (S j <? n)%nat; lra.
    + destruct (Nat.lt_ge_cases i j) as [Hlt|Hge].
      * destruct (Nat.ltb_spec (S i) n); [|lia].
        rewrite (chain_N_first i j) by assumption. lra.
      * rewrite !chain_N_below by lia. destruct (S i <? n)%nat; lra.
  - rewrite (rsum_ext n _ (fun l => chain_N p i l * eye l j
                                    - chain_N p i l * Qm l j))
      by (intros; lra).
    rewrite rsum_minus, rsum_eye_r, chain_Q_col by assumption.
    unfold eye. destruct (Nat.eqb_spec i j) as [->|Hne].
    + rewrite chain_N_diag.
      destruct (Nat.leb_spec 1 j); [rewrite chain_N_below by lia|]; lra.
    + destruct (Nat.lt_ge_cases i j) as [Hlt|Hge].
      * destruct (Nat.leb_spec 1 j); [|lia].
        rewrite (chain_N_last i j) by assumption. lra.
      * rewrite !chain_N_below by lia. destruct (1 <=? j)%nat; lra.
Qed.

Lemma chain_invertible : invertible n (sub eye Qm).
Proof. exists (chain_N p). apply chain_N_is_inverse. Qed.

(** The sale probabilities solve [(I - Q) s = R[:, 0]]. *)
Lemma chain_solution (l : nat) :
  (l < n)%nat ->
  rsum n (fun m => sub eye Qm l m * sale_from n p (S m)) = Rm l 0%nat.
Proof.
  intros Hl. unfold sub.
  rewrite (rsum_ext n _ (fun m => eye l m * sale_from n p (S m)
                                  - Qm l m * sale_from n p (S m)))
    by (intros; lra).
  rewrite rsum_minus, rsum_eye_l, chain_Q_row by assumption.
  rewrite HR. unfold chain_R. destruct (Nat.ltb_spec l n); [|lia].
  cbn [Nat.eqb]. unfold sale_from.
  destruct (Nat.ltb_spec (S l) n) as [Hlt|Hge].
  - replace (S n - S l)%nat with (S (S n - S (S l))) by lia.
    cbn [rprod]. unfold q. lra.
  - replace (S n - S l)%nat with 1%nat by lia. cbn [rprod]. lra.
Qed.

(** Whatever inverse the routine returns, the first column of [N @ R] holds
    the sale probabilities. *)
Lemma chain_absorption (N : ndarray) (i : nat) :
  is_inverse n (sub eye Qm) N -> (i < n)%nat ->
  matmul n N Rm i 0%nat = sale_from n p (S i).
Proof.
  intros [_ Hleft] Hi. unfold matmul.
  rewrite (rsum_ext n _
             (fun l => rsum n (fun m => N i l * sub eye Qm l m
                                        * sale_from n p (S m)))).
  2:{ intros l Hl. rewrite <- chain_solution by assumption.
      rewrite <- rsum_scale_l. apply rsum_ext. intros; lra. }
  rewrite rsum_swap.
  rewrite (rsum_ext n _ (fun m => eye i m * sale_from n p (S m))).
  - now apply (rsum_eye_l n i (fun m => sale_from n p (S m))).
  - intros m Hm. rewrite rsum_scale_r. f_equal. now apply Hleft.
Qed.

End Chain.

(** ** The solver *)


Section Solver.

Lemma for_each_app {S A : Type} (body : S -> A -> result S) (l1 l2 : list A) :
  forall s, for_each body (l1 ++ l2) s
            = (s' <- for_each body l1 s ;; for_each body l2 s').
Proof.
  induction l1 as [|a l1 IH]; intros s; simpl; [reflexivity|].
  destruct (body s a); simpl; [apply IH|reflexivity].
Qed.

Lemma int_nonneg (x : R) : 0 <= x -> (0 <= int x)%Z.
Proof.
  intros Hx. unfold int. destruct (Rle_dec 0 x); [|lra].
  destruct (base_Int_part x) as [_ H].
  apply Z.lt_succ_r. apply lt_IZR. rewrite succ_IZR. lra.
Qed.


Lemma clamp_unit (f : R) : 0 <= Rmax 0 (Rmin 1 f) <= 1.
Proof. apply clamp_bounds. lra. Qed.

Lemma start_bucket_bounds (f : R) (K : Z) :
  (1 <= K)%Z -> (1 <= start_bucket f K <= K)%Z.
Proof.
  intros HK. unfold start_bucket.
  pose proof (clamp_unit f) as Hc.
  assert (H : (0 <= int ((1 - Rmax 0 (Rmin 1 f)) * IZR K))%Z).
  { apply int_nonneg. apply Rmult_le_pos; [lra|]. apply IZR_le. lia. }
  lia.
Qed.


Lemma start_bucket_spoiled (f : R) (K : Z) :
  (1 <= K)%Z -> f <= 0 -> start_bucket f K = K.
Proof.
  intros HK Hf. unfold start_bucket.
  replace (Rmax 0 (Rmin 1 f)) with 0
    by (unfold Rmax, Rmin; decide_reals).
  replace ((1 - 0) * IZR K) with (IZR K) by lra.
  assert (E : int (IZR K) = K).
  { unfold int. destruct (Rle_dec 0 (IZR K)) as [_|Hn].
    - symmetry. apply Int_part_spec. lra.
    - exfalso. apply Hn. apply IZR_le. lia. }
  rewrite E. lia.
Qed.

Lemma p_buy_blend_15 (db : Db) (user_id : Z) (product_name category : string)
  (d : R) :
  p_buy_blend db user_id product_name category d 15
  = Ok (blend15 db user_id product_name category d).
Proof.
  unfold p_buy_blend, blend15.
  destruct (p_buy_user_beta db user_id product_name d) as [pu n].
  destruct (Nat.eqb n 0); [reflexivity|].
  destruct (Z.eqb_spec (Z.of_nat n + 15) 0); [lia|].
  now rewrite plus_IZR, <- INR_IZR_INZ.
Qed.

Variable db : Db.
Variables dmax alpha : R.
Variable n : nat.
Variable user_id : Z.
Variables product_name category : string.

Let K : Z := Z.of_nat n.
Let p : nat -> R := bucket_p db dmax alpha K user_id product_name category.

(** The freshness of every bucket lies in [(0, 1]]. *)
Lemma bucket_freshness_range (k : nat) :
  (1 <= k <= n)%nat -> 0 < 1 - INR (k - 1) / IZR K <= 1.
Proof.
  intros Hk. unfold K. rewrite <- INR_IZR_INZ.
  assert (Hn : 0 < INR n) by (apply lt_0_INR; lia).
  assert (H0 : 0 <= INR (k - 1)) by apply pos_INR.
  assert (H1 : INR (k - 1) < INR n) by (apply lt_INR; lia).
  assert (Hq : 0 <= INR (k - 1) / INR n < 1).
  { split.
    - apply Rmult_le_pos; [assumption|]. left. now apply Rinv_0_lt_compat.
    - apply Rmult_lt_reg_r with (INR n); [assumption|].
      unfold Rdiv. rewrite Rmult_assoc, Rinv_l by lra. lra. }
  lra.
Qed.

Lemma policy_in_range_buckets :
  policy_in_range alpha K <->
  (forall k, (1 <= k <= n)%nat -> bucket_in_range alpha K k).
Proof. unfold policy_in_range, K. now rewrite Nat2Z.id. Qed.

(** A bucket whose power is a float returns its blended buy probability;
    a bucket whose power is not raises [OverflowError]. *)
Lemma bucket_probability_ok (k : nat) :
  (1 <= k <= n)%nat -> bucket_in_range alpha K k ->
  bucket_probability db dmax alpha K user_id product_name category k
  = Ok (p k).
Proof.
  intros Hk Hr. pose proof (bucket_freshness_range k Hk) as HF.
  unfold bucket_probability. rewrite calculate_discount_in_range by lra.
  rewrite pow_positive_base by (try lra; exact Hr). cbn [bind].
  apply p_buy_blend_15.
Qed.

Lemma bucket_probability_overflow (k : nat) :
  (1 <= k <= n)%nat -> ~ bucket_in_range alpha K k ->
  bucket_probability db dmax alpha K user_id product_name category k
  = Raise OverflowError.
Proof.
  intros Hk Hr. pose proof (bucket_freshness_range k Hk) as HF.
  unfold bucket_probability. rewrite calculate_discount_in_range by lra.
  rewrite pow_overflow; [reflexivity|lra|].
  apply Rnot_le_lt. exact Hr.
Qed.

(** The first [len] turns of the loop: either every bucket so far is in
    range and the arrays are filled, or a bucket overflowed and the loop
    raised. *)
Lemma chain_loop_result (len : nat) :
  (len <= n)%nat ->
  ((forall k, (1 <= k <= len)%nat -> bucket_in_range alpha K k) /\
   exists Qm Rm,
     for_each (chain_step db dmax alpha K user_id product_name category)
              (seq 1 len) (zeros, zeros) = Ok (Qm, Rm) /\
     (forall i j, Qm i j = if (S i <=? len)%nat then chain_Q n p i j else 0) /\
     (forall i j, Rm i j = if (S i <=? len)%nat then chain_R n p i j else 0)) \/
  ((exists k, (1 <= k <= len)%nat /\ ~ bucket_in_range alpha K k) /\
   for_each (chain_step db dmax alpha K user_id product_name category)
            (seq 1 len) (zeros, zeros) = Raise OverflowError).
Proof.
  induction len as [|len IH]; intros Hlen.
  - left. split; [intros k Hk; lia|].
    exists zeros, zeros. repeat split; intros; reflexivity.
  - destruct IH as [[Hr (Qm & Rm & E & HQ & HR)]|[(k & Hk & Hr) E]]; [lia| |].
    + destruct (Rle_dec (Rpower (1 - INR (S len - 1) / IZR K) alpha) float_max)
        as [Hin|Hout].
      * left. split.
        { intros k Hk. destruct (Nat.eq_dec k (S len)) as [->|Hne];
            [exact Hin|apply Hr; lia]. }
        rewrite seq_S, for_each_app, E. cbn [bind for_each Nat.add].
        unfold chain_step at 1.
        rewrite bucket_probability_ok by (try lia; exact Hin). cbn [bind].
        unfold K at 1. rewrite Nat2Z.id.
        replace (S len - 1)%nat with len by lia.
        destruct (Nat.ltb_spec (S len) n) as [Hlt|Hge].
        -- eexists _, _. split; [reflexivity|].
           split; intros i j; unfold setitem; [rewrite HQ|rewrite HR];
             unfold chain_Q, chain_R; decide_nats; subst; try lia; reflexivity.
        -- eexists _, _. split; [reflexivity|].
           split; intros i j; unfold setitem; [rewrite HQ|rewrite !HR];
             unfold chain_Q, chain_R; decide_nats; subst; try lia; reflexivity.
      * right. split; [exists (S len); split; [lia|exact Hout]|].
        rewrite seq_S, for_each_app, E. cbn [bind for_each Nat.add].
        unfold chain_step at 1.
        rewrite bucket_probability_overflow by (try lia; exact Hout).
        reflexivity.
    + right. split; [exists k; split; [lia|exact Hr]|].
      rewrite seq_S, for_each_app, E. reflexivity.
Qed.

(** The arrays after the whole loop, when no bucket overflows. *)
Lemma chain_loop :
  policy_in_range alpha K ->
  exists Qm Rm,
    for_each (chain_step db dmax alpha K user_id product_name category)
             (seq 1 n) (zeros, zeros) = Ok (Qm, Rm) /\
    (forall i j, Qm i j = chain_Q n p i j) /\
    (forall i j, Rm i j = chain_R n p i j).
Proof.
  intros Hr. pose proof (proj1 policy_in_range_buckets Hr) as Hb.
  destruct (chain_loop_result n (Nat.le_refl n))
    as [[_ (Qm & Rm & E & HQ & HR)]|[(k & Hk & Hout) _]].
  - exists Qm, Rm. split; [exact E|].
    split; intros i j; [rewrite HQ; unfold chain_Q|rewrite HR; unfold chain_R];
      decide_nats.
  - exfalso. apply Hout, Hb, Hk.
Qed.

(** When the loop returns, no bucket overflowed and the arrays are those of
    the chain. *)
Lemma chain_loop_returns (Qm Rm : ndarray) :
  for_each (chain_step db dmax alpha K user_id product_name category)
           (seq 1 n) (zeros, zeros) = Ok (Qm, Rm) ->
  policy_in_range alpha K /\
  (forall i j, Qm i j = chain_Q n p i j) /\
  (forall i j, Rm i j = chain_R n p i j).
Proof.
  intros E.
  destruct (chain_loop_result n (Nat.le_refl n))
    as [[Hr (Q' & R' & E' & HQ & HR)]|[_ E']];
    rewrite E in E'; [|discriminate].
  inversion E'; subst Q' R'.
  split; [exact (proj2 policy_in_range_buckets Hr)|].
  split; intros i j; [rewrite HQ; unfold chain_Q|rewrite HR; unfold chain_R];
    decide_nats.
Qed.

(** When a bucket overflows, the loop raises. *)
Lemma chain_loop_overflow :
  ~ policy_in_range alpha K ->
  for_each (chain_step db dmax alpha K user_id product_name category)
           (seq 1 n) (zeros, zeros) = Raise OverflowError.
Proof.
  intros Hout.
  destruct (chain_loop_result n (Nat.le_refl n)) as [[Hr _]|[_ E]];
    [|exact E].
  exfalso. exact (Hout (proj2 policy_in_range_buckets Hr)).
Qed.

(** The whole function, up to the call of the inversion routine. *)
Lemma sold_prob_markov_with_unfold (inv : nat -> ndarray -> option ndarray)
  (freshness dt_hours : R) :
  policy_in_range alpha K ->
  exists Qm Rm,
    (forall i j, Qm i j = chain_Q n p i j) /\
    (forall i j, Rm i j = chain_R n p i j) /\
    sold_prob_markov_with inv db freshness dmax alpha K dt_hours
                          user_id product_name category
    = match inv n (sub eye Qm) with
      | None => Ok 0
      | Some N => getitem n 2 (matmul n N Rm) (start_bucket freshness K - 1) 0
      end.
Proof.
  intros Hr. destruct (chain_loop Hr) as (Qm & Rm & E & HQ & HR).
  exists Qm, Rm. split; [exact HQ|]. split; [exact HR|].
  unfold sold_prob_markov_with.
  destruct (Z.ltb_spec K 0) as [Hneg|_]; [unfold K in Hneg; lia|].
  replace (Z.to_nat K) with n by (unfold K; lia).
  rewrite E. reflexivity.
Qed.

(** The solver passes the [OverflowError] of a bucket on to its caller,
    whatever the inversion routine. *)
Lemma sold_prob_markov_with_overflow (inv : nat -> ndarray -> option ndarray)
  (freshness dt_hours : R) :
  ~ policy_in_range alpha K ->
  sold_prob_markov_with inv db freshness dmax alpha K dt_hours
                        user_id product_name category
  = Raise OverflowError.
Proof.
  intros Hout. unfold sold_prob_markov_with.
  destruct (Z.ltb_spec K 0) as [Hneg|_]; [unfold K in Hneg; lia|].
  replace (Z.to_nat K) with n by (unfold K; lia).
  now rewrite chain_loop_overflow.
Qed.

Lemma getitem_start_bucket (B : ndarray) (freshness : R) :
  (1 <= n)%nat ->
  getitem n 2 B (start_bucket freshness K - 1) 0
  = Ok (B (Z.to_nat (start_bucket freshness K) - 1)%nat 0%nat).
Proof.
  intros Hn.
  pose proof (start_bucket_bounds freshness K ltac:(unfold K; lia)) as Hk.
  unfold getitem, index.
  destruct (Z.leb_spec 0 (start_bucket freshness K - 1)); [|lia].
  destruct (Z.ltb_spec (start_bucket freshness K - 1) (Z.of_nat n));
    [|unfold K in *; lia].
  cbn. f_equal. f_equal. lia.
Qed.

Lemma sold_prob_markov_survival (freshness dt_hours : R) :
  (1 <= n)%nat -> policy_in_range alpha K ->
  sold_prob_markov db freshness dmax alpha K dt_hours
                   user_id product_name category
  = Ok (sale_from n p (Z.to_nat (start_bucket freshness K))).
Proof.
  intros Hn Hr. unfold sold_prob_markov.
  destruct (sold_prob_markov_with_unfold linalg_inv freshness dt_hours Hr)
    as (Qm & Rm & HQ & HR & E).
  rewrite E.
  destruct (linalg_inv_invertible n (sub eye Qm)) as (N & EN & HN);
    [now apply (chain_invertible n p)|].
  rewrite EN, getitem_start_bucket by assumption.
  pose proof (start_bucket_bounds freshness K ltac:(unfold K; lia)) as Hk.
  rewrite (chain_absorption n p Qm Rm HQ HR N) by (try assumption; lia).
  do 2 f_equal. lia.
Qed.

End Solver.

Section SolverClaims.

Import Sample.


(** Powers under which no bucket overflows: every non-negative power, and
    every power when there is no bucket or a single one (whose freshness
    is 1). *)
Lemma policy_in_range_nonneg (alpha : R) (K : Z) :
  0 <= alpha -> policy_in_range alpha K.
Proof.
  intros Ha k Hk. unfold bucket_in_range.
  apply Rpower_unit_in_range; [|assumption].
  pose proof (bucket_freshness_range (Z.to_nat K) k Hk) as H.
  rewrite Z2Nat.id in H by lia. exact H.
Qed.


Lemma policy_in_range_single_bucket (alpha : R) : policy_in_range alpha 1.
Proof.
  intros k Hk. unfold bucket_in_range. replace k with 1%nat by lia.
  cbn [Nat.sub INR]. replace (1 - 0 / 1) with 1 by lra.
  rewrite Rpower_1_base. pose proof float_max_ge_2. lra.
Qed.



Lemma steep_power_out_of_range_48 : ~ policy_in_range (-2000) 48.
Proof.
  intros H. specialize (H 25%nat ltac:(lia)). unfold bucket_in_range in H.
  replace (INR (25 - 1)) with 24 in H by (rewrite INR_IZR_INZ; reflexivity).
  replace (1 - 24 / 48) with (1 / 2) in H by lra.
  pose proof half_power_overflows. lra.
Qed.

(** The solver's result with at least one bucket: the sale probability from
    the starting bucket when no bucket overflows, the [OverflowError] of the
    bucket when one does. *)
Lemma sold_prob_markov_value (db : Db) (freshness dmax alpha : R) (K : Z)
  (dt_hours : R) (user_id : Z) (product_name category : string) :
  (1 <= K)%Z -> policy_in_range alpha K ->
  sold_prob_markov db freshness dmax alpha K dt_hours user_id product_name category
  = Ok (sale_from (Z.to_nat K)
          (bucket_p db dmax alpha K user_id product_name category)
          (Z.to_nat (start_bucket freshness K))).
Proof.
  intros HK Hr.
  pose proof (sold_prob_markov_survival db dmax alpha (Z.to_nat K) user_id
                product_name category freshness dt_hours ltac:(lia)) as H.
  rewrite Z2Nat.id in H by lia. exact (H Hr).
Qed.

Lemma sold_prob_markov_overflow (db : Db) (freshness dmax alpha : R) (K : Z)
  (dt_hours : R) (user_id : Z) (product_name category : string) :
  (0 <= K)%Z -> ~ policy_in_range alpha K ->
  sold_prob_markov db freshness dmax alpha K dt_hours user_id product_name category
  = Raise OverflowError.
Proof.
  intros HK Hout. unfold sold_prob_markov.
  pose proof (sold_prob_markov_with_overflow db dmax alpha (Z.to_nat K) user_id
                product_name category linalg_inv freshness dt_hours) as H.
  rewrite Z2Nat.id in H by lia. exact (H Hout).
Qed.





(** C9: for every [K >= 1], whenever the loop of the solver returns its
    arrays, [I - Q] has ones on its diagonal, [-(1 - p_k)] on its
    superdiagonal and zeros elsewhere, so it is unit upper triangular, its
    determinant is 1, it is invertible, and the inversion does not fail: the
    branch returning 0.0 is not taken. The loop does return when no bucket's
    power overflows. The same facts hold of the chain matrix of any
    per-bucket probabilities. *)
Theorem chain_matrix_unit_upper_triangular (db : Db) (dmax alpha : R) (K : Z)
  (user_id : Z) (product_name category : string) :
  (1 <= K)%Z ->
  let n := Z.to_nat K in
  let p := bucket_p db dmax alpha K user_id product_name category in
  (forall Qm Rm,
     for_each (chain_step db dmax alpha K user_id product_name category)
              (seq 1 n) (zeros, zeros) = Ok (Qm, Rm) ->
     (forall i j, (i < n)%nat -> (j < n)%nat ->
        sub eye Qm i j = if (j =? i)%nat then 1
                         else if (j =? S i)%nat then - (1 - p (S i))
                         else 0) /\
     unit_upper_triangular n (sub eye Qm) /\
     det n (sub eye Qm) = 1 /\
     invertible n (sub eye Qm) /\
     linalg_inv n (sub eye Qm) <> None) /\
  (policy_in_range alpha K ->
   exists Qm Rm,
     for_each (chain_step db dmax alpha K user_id product_name category)
              (seq 1 n) (zeros, zeros) = Ok (Qm, Rm)) /\
  (forall (p' : nat -> R) (Q' : ndarray),
     (forall i j, Q' i j = chain_Q n p' i j) ->
     unit_upper_triangular n (sub eye Q') /\ det n (sub eye Q') = 1 /\
     invertible n (sub eye Q') /\ linalg_inv n (sub eye Q') <> None).
Proof.
  intros HK n p.
  assert (EK : Z.of_nat n = K) by (unfold n; apply Z2Nat.id; lia).
  assert (Hany : forall (p' : nat -> R) (Q' : ndarray),
             (forall i j, Q' i j = chain_Q n p' i j) ->
             unit_upper_triangular n (sub eye Q') /\ det n (sub eye Q') = 1 /\
             invertible n (sub eye Q') /\ linalg_inv n (sub eye Q') <> None).
  { intros p' Q' H'.
    split; [now apply (chain_unit_upper_triangular n p')|].
    split; [now apply (chain_det n p')|].
    split; [now apply (chain_invertible n p')|].
    destruct (linalg_inv_invertible n (sub eye Q')) as (N & EN & _);
      [now apply (chain_invertible n p')|].
    congruence. }
  split; [|split; [|exact Hany]].
  - intros Qm Rm E.
    pose proof (chain_loop_returns db dmax alpha n user_id product_name
                  category Qm Rm) as H.
    rewrite EK in H. destruct (H E) as (_ & HQ & _).
    split; [intros i j; now apply chain_matrix_entries|].
    exact (Hany p Qm HQ).
  - intros Hr.
    pose proof (chain_loop db dmax alpha n user_id product_name category) as H.
    rewrite EK in H. destruct (H Hr) as (Qm & Rm & E & _ & _).
    now exists Qm, Rm.
Qed.

Lemma chain_matrix_unit_upper_triangular_witness :
  exists Qm Rm,
    for_each (chain_step (db_of_curve apple_curve) (3 / 4) (3 / 2) 2
                         1 "apple" "apple")
             (seq 1 2) (zeros, zeros) = Ok (Qm, Rm) /\
    unit_upper_triangular 2 (sub eye Qm) /\
    det 2 (sub eye Qm) = 1 /\
    invertible 2 (sub eye Qm) /\
    linalg_inv 2 (sub eye Qm) <> None.
Proof.
  destruct (chain_matrix_unit_upper_triangular
              (db_of_curve apple_curve) (3 / 4) (3 / 2) 2 1 "apple" "apple"
              ltac:(lia)) as (Hfacts & Hreturns & _).
  destruct (Hreturns (policy_in_range_nonneg (3 / 2) 2 ltac:(lra)))
    as (Qm & Rm & E).
  destruct (Hfacts Qm Rm E) as (_ & Hfact).
  exists Qm, Rm. split; [exact E|exact Hfact].
Defined.




End SolverClaims.

(** ** Per-lot impact *)

Section Impact.

Import Sample SampleStore.

Lemma sold_prob_markov_total (db : Db) (f dmax alpha : R) (K : Z) (dt : R)
  (user_id : Z) (product_name category : string) :
  (1 <= K)%Z -> policy_in_range alpha K ->
  exists ps, sold_prob_markov db f dmax alpha K dt user_id product_name category
             = Ok ps.
Proof.
  intros HK Hr. rewrite sold_prob_markov_value by assumption. eauto.
Qed.

(** Whatever the arguments, a value the estimate returns is not negative. *)
Lemma estimate_units_saved_result_nonneg (db : Db) (lot_id : Z)
  (baseline_params dynamic_params : PolicyParams) (user_id K : Z)
  (dt_hours units : R) :
  estimate_units_saved db lot_id baseline_params dynamic_params
                       user_id K dt_hours = Ok units ->
  0 <= units.
Proof.
  unfold estimate_units_saved.
  destruct (MODELS_AVAILABLE db); cbn [negb].
  2:{ intros E. inversion E. lra. }
  destruct (query_inventory_get db lot_id) as [item|].
  2:{ intros E. inversion E. lra. }
  fold (lot_freshness item).
  destruct (sold_prob_markov db (lot_freshness item) (dmax dynamic_params)
              (alpha dynamic_params) K dt_hours user_id (fruit_type item)
              (fruit_type item)) as [pd|e]; cbn [bind]; [|discriminate].
  destruct (sold_prob_markov db (lot_freshness item) (dmax baseline_params)
              (alpha baseline_params) K dt_hours user_id (fruit_type item)
              (fruit_type item)) as [pb|e]; cbn [bind]; [|discriminate].
  intros E. inversion E. apply Rmax_l.
Qed.

(** With at least one bucket and two policies under which no bucket
    overflows, the estimate returns, and returns a value that is not
    negative. *)
Lemma estimate_units_saved_total (db : Db) (lot_id : Z)
  (baseline_params dynamic_params : PolicyParams) (user_id K : Z) (dt_hours : R) :
  (1 <= K)%Z ->
  policy_in_range (alpha dynamic_params) K ->
  policy_in_range (alpha baseline_params) K ->
  exists units,
    estimate_units_saved db lot_id baseline_params dynamic_params
                         user_id K dt_hours = Ok units /\
    0 <= units /\
    (forall item,
       MODELS_AVAILABLE db = true -> query_inventory_get db lot_id = Some item ->
       exists ps_dyn ps_base,
         sold_prob_markov db (lot_freshness item)
                          (dmax dynamic_params) (alpha dynamic_params)
                          K dt_hours user_id (fruit_type item) (fruit_type item)
         = Ok ps_dyn /\
         sold_prob_markov db (lot_freshness item)
                          (dmax baseline_params) (alpha baseline_params)
                          K dt_hours user_id (fruit_type item) (fruit_type item)
         = Ok ps_base /\
         units = Rmax 0 (IZR (quantity item) * (ps_dyn - ps_base))).
Proof.
  intros HK Hdyn Hbase. unfold estimate_units_saved.
  destruct (MODELS_AVAILABLE db) eqn:Hm; cbn [negb].
  2:{ exists 0. split; [reflexivity|]. split; [lra|]. intros; discriminate. }
  destruct (query_inventory_get db lot_id) as [item|] eqn:Hq.
  2:{ exists 0. split; [reflexivity|]. split; [lra|]. intros; discriminate. }
  fold (lot_freshness item).
  destruct (sold_prob_markov_total db (lot_freshness item)
              (dmax dynamic_params) (alpha dynamic_params) K dt_hours user_id
              (fruit_type item) (fruit_type item) HK Hdyn) as [pd Ed].
  destruct (sold_prob_markov_total db (lot_freshness item)
              (dmax baseline_params) (alpha baseline_params) K dt_hours user_id
              (fruit_type item) (fruit_type item) HK Hbase) as [pb Eb].
  rewrite Ed, Eb. cbn [bind].
  exists (Rmax 0 (IZR (quantity item) * (pd - pb))).
  split; [reflexivity|]. split; [apply Rmax_l|].
  intros item' _ E. inversion E; subst item'. eauto.
Qed.

(** The estimate of a stored lot passes on the [OverflowError] of the
    solver under the dynamic policy. *)
Lemma estimate_units_saved_overflow (db : Db) (lot_id : Z)
  (baseline_params dynamic_params : PolicyParams) (user_id K : Z)
  (dt_hours : R) (item : FruitInventory) :
  (0 <= K)%Z -> MODELS_AVAILABLE db = true ->
  query_inventory_get db lot_id = Some item ->
  ~ policy_in_range (alpha dynamic_params) K ->
  estimate_units_saved db lot_id baseline_params dynamic_params
                       user_id K dt_hours = Raise OverflowError.
Proof.
  intros HK Hm Hq Hout. unfold estimate_units_saved.
  rewrite Hm, Hq. cbn [negb].
  now rewrite sold_prob_markov_overflow by assumption.
Qed.




End Impact.

(** ** The solver and the maximum discount *)

Section MaxDiscount.

Import Sample SampleStats.















Lemma bucket_discount_first (m alpha : R) (K : Z) :
  bucket_discount m alpha K 1 = 0.
Proof.
  unfold bucket_discount. cbn [Nat.sub INR].
  replace (1 - 0 / IZR K) with 1 by (unfold Rdiv; lra).
  rewrite Rpower_1_base.
  unfold Rmax, Rmin. decide_reals.
Qed.







End MaxDiscount.

(** ** Portfolio aggregate *)

Section Aggregate.

Import Sample SampleStore.

Lemma round2_zero : round2 0 = 0.
Proof.
  unfold round2, round_half_even. rewrite Rmult_0_l.
  replace (Int_part 0) with 0%Z by (apply Int_part_spec; lra).
  destruct (Rlt_dec (0 - 0) (1 / 2)); [|lra]. lra.
Qed.

Lemma round2_85 : round2 85 = 85.
Proof.
  unfold round2, round_half_even. replace (85 * 100) with 8500 by lra.
  replace (Int_part 8500) with 8500%Z by (apply Int_part_spec; lra).
  destruct (Rlt_dec (8500 - 8500) (1 / 2)); [|lra]. lra.
Qed.

Lemma estimate_co2e_saved_zero (db : Db) (product_name : string) :
  estimate_co2e_saved db 0 product_name = 0.
Proof.
  unfold estimate_co2e_saved. destruct (Rle_dec 0 0); [|lra].
  now rewrite orb_true_r.
Qed.

(** The aggregate over a single lot, once a user is settled: the rounded
    estimates when the lot's estimate returns, zeros when it raises. *)
Lemma compute_aggregate_impact_single_returns (db : Db) (store user_id : option Z)
  (baseline_params dynamic_params : option PolicyParams)
  (item : FruitInventory) (user : Z) (units : R) :
  query_inventory db store = [item] ->
  resolved_user db user_id = Some user ->
  estimate_units_saved db (inv_id item)
                       (resolved_policy baseline_params default_baseline)
                       (resolved_policy dynamic_params default_dynamic)
                       user 48 1 = Ok units ->
  compute_aggregate_impact db store user_id baseline_params dynamic_params
  = {| units_saved := round2 units;
       waste_saved_kg :=
         round2 (calculate_weight_from_quantity (fruit_type item) units);
       co2e_saved := round2 (estimate_co2e_saved db units (fruit_type item));
       revenue_generated :=
         round2 (estimate_additional_revenue_generated
                   units (fruit_type item) (price_per_unit item)) |}.
Proof.
  intros Hitems Huser E.
  pose proof (estimate_units_saved_result_nonneg _ _ _ _ _ _ _ _ E) as Hpos.
  unfold compute_aggregate_impact.
  destruct (MODELS_AVAILABLE db) eqn:Hm; cbn [negb].
  - unfold resolved_user in Huser. rewrite Huser, Hitems.
    cbn [List.length Nat.eqb fold_left]. unfold aggregate_step.
    unfold resolved_policy in E. rewrite E.
    destruct (Rlt_dec 0 units) as [Hlt|Hle].
    + now rewrite !Rplus_0_l.
    + assert (units = 0) by lra. subst units.
      unfold estimate_additional_revenue_generated,
        calculate_weight_from_quantity.
      now rewrite estimate_co2e_saved_zero, !Rmult_0_l.
  - unfold estimate_units_saved in E. rewrite Hm in E. cbn [negb] in E.
    inversion E; subst units. unfold zero_impact.
    unfold estimate_additional_revenue_generated,
      calculate_weight_from_quantity.
    now rewrite estimate_co2e_saved_zero, !Rmult_0_l, !round2_zero.
Qed.

Lemma compute_aggregate_impact_single_raises (db : Db) (store user_id : option Z)
  (baseline_params dynamic_params : option PolicyParams)
  (item : FruitInventory) (user : Z) (e : exn) :
  query_inventory db store = [item] ->
  resolved_user db user_id = Some user ->
  estimate_units_saved db (inv_id item)
                       (resolved_policy baseline_params default_baseline)
                       (resolved_policy dynamic_params default_dynamic)
                       user 48 1 = Raise e ->
  compute_aggregate_impact db store user_id baseline_params dynamic_params
  = zero_impact.
Proof.
  intros Hitems Huser E. unfold compute_aggregate_impact.
  destruct (MODELS_AVAILABLE db) eqn:Hm; cbn [negb]; [|reflexivity].
  unfold resolved_user in Huser. rewrite Huser, Hitems.
  cbn [List.length Nat.eqb fold_left]. unfold aggregate_step.
  unfold resolved_policy in E. rewrite E.
  unfold zero_impact. now rewrite !round2_zero.
Qed.

(** A spoiled lot starts in the last bucket, whose freshness is 1/48: under
    the linear policy up to 100% its discount is 47/48, under the default
    baseline it is 0. *)
Lemma last_bucket_discounts :
  bucket_discount 1 1 48 48 = 47 / 48 /\ bucket_discount 0 1 48 48 = 0.
Proof.
  unfold bucket_discount.
  replace (INR (48 - 1)) with 47 by (rewrite INR_IZR_INZ; reflexivity).
  rewrite Rpower_1 by lra.
  unfold normalize_max_discount, Rmax, Rmin. split; decide_reals.
Qed.

Lemma spoiled_lot_estimate (user : Z) :
  estimate_units_saved unattended_db (inv_id spoiled_lot)
                       default_baseline full_discount user 48 1
  = Ok 85.
Proof.
  destruct last_bucket_discounts as [D1 D0].
  unfold estimate_units_saved.
  change (MODELS_AVAILABLE unattended_db) with true.
  change (query_inventory_get unattended_db (inv_id spoiled_lot))
    with (Some spoiled_lot).
  cbn [negb]. fold (lot_freshness spoiled_lot).
  assert (Ef : lot_freshness spoiled_lot = 0).
  { unfold lot_freshness. cbn [freshness spoiled_lot].
    unfold Rmax, Rmin. decide_reals. }
  rewrite Ef.
  rewrite !sold_prob_markov_value
    by (try lia; apply policy_in_range_nonneg; simpl; lra).
  rewrite !start_bucket_spoiled by (try lia; lra).
  cbn [bind]. unfold sale_from.
  replace (S (Z.to_nat 48) - Z.to_nat 48)%nat with 1%nat by lia.
  cbn [rprod]. unfold bucket_p.
  change (Z.to_nat 48) with 48%nat.
  cbn [dmax alpha full_discount default_baseline fruit_type spoiled_lot quantity].
  rewrite D1, D0.
  assert (B1 : blend15 unattended_db user "apple" "apple" (47 / 48 * 100)
               = 90 / 100) by evaluate_blend.
  assert (B0 : blend15 unattended_db user "apple" "apple" (0 * 100) = 5 / 100)
    by evaluate_blend.
  rewrite B1, B0. f_equal. unfold Rmax. decide_reals.
Qed.

(** C8, as stated, fails. In a store without customers and without a
    [user_id] the aggregate over its one lot reports 0 units, while the
    estimate of that lot is 85 units for every user. And under a dynamic
    policy of power -2000 the estimate of the one lot returns no value, it
    raises [OverflowError], while the aggregate reports 0 units. *)
Lemma compute_aggregate_impact_single_lot_counterexample :
  query_inventory unattended_db None = [spoiled_lot] /\
  units_saved (compute_aggregate_impact unattended_db None None
                                        None (Some full_discount)) = 0 /\
  (forall user,
     estimate_units_saved unattended_db (inv_id spoiled_lot)
                          default_baseline full_discount user 48 1 = Ok 85) /\
  round2 85 <> 0 /\
  query_inventory store_db None = [apple_lot] /\
  estimate_units_saved store_db (inv_id apple_lot)
                       default_baseline steep_policy 1 48 1
  = Raise OverflowError /\
  units_saved (compute_aggregate_impact store_db None (Some 1%Z)
                                        None (Some steep_policy)) = 0.
Proof.
  assert (E : estimate_units_saved store_db (inv_id apple_lot)
                                   default_baseline steep_policy 1 48 1
              = Raise OverflowError).
  { apply (estimate_units_saved_overflow store_db 7 default_baseline
             steep_policy 1 48 1 apple_lot); try reflexivity; [lia|].
    exact steep_power_out_of_range_48. }
  split; [reflexivity|]. split; [reflexivity|].
  split; [exact spoiled_lot_estimate|].
  split; [rewrite round2_85; lra|].
  split; [reflexivity|]. split; [exact E|].
  rewrite (compute_aggregate_impact_single_raises store_db None (Some 1%Z)
             None (Some steep_policy) apple_lot 1 OverflowError);
    reflexivity || exact E.
Qed.

(** C8, amended: when the inventory query returns exactly one lot and a
    user is settled (the caller's, else the first customer): whenever the
    per-lot estimate of that lot returns a value, the aggregate's units,
    CO2e and revenue are the per-lot estimates of units, CO2e and revenue
    (at the current price when positive, else the original price), each
    rounded to 2 decimals; the per-lot estimate does return when no bucket's
    power [Fk ** alpha] overflows under either policy (every [alpha >= 0]
    is such a power); and when the per-lot estimate raises, the aggregate
    reports zeros. *)
Theorem compute_aggregate_impact_single_lot (db : Db) (store user_id : option Z)
  (baseline_params dynamic_params : option PolicyParams)
  (item : FruitInventory) (user : Z) :
  query_inventory db store = [item] ->
  resolved_user db user_id = Some user ->
  let aggregate :=
    compute_aggregate_impact db store user_id baseline_params dynamic_params in
  let estimate :=
    estimate_units_saved db (inv_id item)
                         (resolved_policy baseline_params default_baseline)
                         (resolved_policy dynamic_params default_dynamic)
                         user 48 1 in
  (forall units, estimate = Ok units ->
     units_saved aggregate = round2 units /\
     co2e_saved aggregate
     = round2 (estimate_co2e_saved db units (fruit_type item)) /\
     revenue_generated aggregate
     = round2 (estimate_additional_revenue_generated
                 units (fruit_type item)
                 (if Rlt_dec 0 (current_price item) then current_price item
                  else original_price item))) /\
  (policy_in_range (alpha (resolved_policy dynamic_params default_dynamic)) 48 ->
   policy_in_range (alpha (resolved_policy baseline_params default_baseline)) 48 ->
   exists units, estimate = Ok units) /\
  (forall e, estimate = Raise e -> aggregate = zero_impact).
Proof.
  intros Hitems Huser aggregate estimate. split; [|split].
  - intros units E. unfold aggregate.
    rewrite (compute_aggregate_impact_single_returns db store user_id
               baseline_params dynamic_params item user units Hitems Huser E).
    cbn [units_saved co2e_saved revenue_generated].
    repeat split; reflexivity.
  - intros Hdyn Hbase.
    destruct (estimate_units_saved_total db (inv_id item)
                (resolved_policy baseline_params default_baseline)
                (resolved_policy dynamic_params default_dynamic)
                user 48 1 ltac:(lia) Hdyn Hbase) as (units & E & _).
    now exists units.
  - intros e E.
    now apply (compute_aggregate_impact_single_raises db store user_id
                 baseline_params dynamic_params item user e).
Qed.

Lemma compute_aggregate_impact_single_lot_witness :
  (exists units,
     estimate_units_saved store_db (inv_id apple_lot)
                          (resolved_policy None default_baseline)
                          (resolved_policy None default_dynamic)
                          1 48 1 = Ok units /\
     units_saved (compute_aggregate_impact store_db None None None None)
     = round2 units /\
     co2e_saved (compute_aggregate_impact store_db None None None None)
     = round2 (estimate_co2e_saved store_db units (fruit_type apple_lot)) /\
     revenue_generated (compute_aggregate_impact store_db None None None None)
     = round2 (estimate_additional_revenue_generated
                 units (fruit_type apple_lot)
                 (if Rlt_dec 0 (current_price apple_lot)
                  then current_price apple_lot
                  else original_price apple_lot))) /\
  compute_aggregate_impact store_db None None None (Some steep_policy)
  = zero_impact.
Proof.
  split.
  - destruct (compute_aggregate_impact_single_lot
                store_db None None None None apple_lot 1 eq_refl eq_refl)
      as (Hsame & Hreturns & _).
    destruct Hreturns as [units E];
      [apply policy_in_range_nonneg; simpl; lra
      |apply policy_in_range_nonneg; simpl; lra|].
    exists units. split; [exact E|]. exact (Hsame units E).
  - apply (proj2 (proj2 (compute_aggregate_impact_single_lot
                           store_db None None None (Some steep_policy)
                           apple_lot 1 eq_refl eq_refl)) OverflowError).
    apply (estimate_units_saved_overflow store_db 7 default_baseline
             steep_policy 1 48 1 apple_lot); try reflexivity; [lia|].
    exact steep_power_out_of_range_48.
Defined.

End Aggregate.

(** * Further properties of the code *)

(** ** Discount curve: errors, end points, percentage scale *)

Section DiscountEdges.

(** [0.5 ** -1] is 2, a float. *)
Lemma half_inverse_in_range : Rpower (1 / 2) (-1) <= float_max.
Proof.
  replace (-1) with (- (1)) by lra. rewrite Rpower_Ropp, Rpower_1 by lra.
  replace (/ (1 / 2)) with 2 by field. apply float_max_ge_2.
Qed.

(** X1: [calculate_discount_from_freshness] raises [ValueError] on a
    freshness outside [[0,1]], [ZeroDivisionError] on zero freshness with a
    negative power, [OverflowError] on a positive freshness whose power
    [f ** p] is beyond the largest float, and returns a discount on every
    other input; a power that is not negative never makes it raise on a
    freshness in [[0,1]]. *)
Theorem calculate_discount_errors (f m p : R) :
  (f < 0 \/ 1 < f -> calculate_discount_from_freshness f m p = Raise ValueError) /\
  (f = 0 -> p < 0 ->
   calculate_discount_from_freshness f m p = Raise ZeroDivisionError) /\
  (0 < f <= 1 -> float_max < Rpower f p ->
   calculate_discount_from_freshness f m p = Raise OverflowError) /\
  (0 < f <= 1 -> Rpower f p <= float_max ->
   exists d, calculate_discount_from_freshness f m p = Ok d) /\
  (0 <= f <= 1 -> 0 <= p ->
   exists d, calculate_discount_from_freshness f m p = Ok d).
Proof.
  assert (Hin : 0 < f <= 1 -> Rpower f p <= float_max ->
                exists d, calculate_discount_from_freshness f m p = Ok d).
  { intros Hf Hr. rewrite calculate_discount_in_range by lra.
    rewrite pow_positive_base by (try lra; exact Hr). eexists; reflexivity. }
  split; [|split; [|split; [|split; [exact Hin|]]]].
  - intros H. unfold calculate_discount_from_freshness.
    destruct (Rle_dec 0 f), (Rle_dec f 1); cbn [andb]; try reflexivity; lra.
  - intros -> Hp. rewrite calculate_discount_in_range by lra.
    unfold pow. destruct (Req_dec_T 0 0); [|lra].
    destruct (Rlt_dec 0 p); [lra|]. destruct (Req_dec_T p 0); [lra|reflexivity].
  - intros Hf Hr. rewrite calculate_discount_in_range by lra.
    rewrite pow_overflow by (try lra; exact Hr). reflexivity.
  - intros Hf Hp. destruct (Req_dec_T f 0) as [->|Hnz].
    + rewrite calculate_discount_in_range by lra.
      unfold pow. destruct (Req_dec_T 0 0); [|lra].
      destruct (Rlt_dec 0 p); [eexists; reflexivity|].
      destruct (Req_dec_T p 0); [eexists; reflexivity|lra].
    + apply Hin; [lra|]. apply Rpower_unit_in_range; lra.
Qed.

Lemma calculate_discount_errors_witness :
  calculate_discount_from_freshness (3 / 2) (3 / 4) (3 / 2) = Raise ValueError /\
  calculate_discount_from_freshness 0 (3 / 4) (-1) = Raise ZeroDivisionError /\
  calculate_discount_from_freshness (1 / 2) (3 / 4) (-2000)
  = Raise OverflowError /\
  (exists d, calculate_discount_from_freshness (1 / 2) (3 / 4) (-1) = Ok d) /\
  (exists d, calculate_discount_from_freshness 0 (3 / 4) (3 / 2) = Ok d).
Proof.
  split; [|split; [|split; [|split]]].
  - apply (proj1 (calculate_discount_errors (3 / 2) (3 / 4) (3 / 2))). lra.
  - apply (proj1 (proj2 (calculate_discount_errors 0 (3 / 4) (-1)))); lra.
  - apply (proj1 (proj2 (proj2 (calculate_discount_errors
                                  (1 / 2) (3 / 4) (-2000)))));
      [lra|exact half_power_overflows].
  - apply (proj1 (proj2 (proj2 (proj2 (calculate_discount_errors
                                         (1 / 2) (3 / 4) (-1))))));
      [lra|exact half_inverse_in_range].
  - apply (proj2 (proj2 (proj2 (proj2 (calculate_discount_errors
                                         0 (3 / 4) (3 / 2)))))); lra.
Defined.

(** X2: a fully fresh item gets no discount, whatever the policy; an item of
    zero freshness gets the whole maximum discount (as a ratio) under any
    positive power. *)
Theorem calculate_discount_end_points (m p : R) :
  calculate_discount_from_freshness 1 m p = Ok 0 /\
  (0 < p -> 0 <= m ->
   calculate_discount_from_freshness 0 m p
   = Ok (if Rlt_dec 1 m then m / 100 else m)).
Proof.
  split.
  - rewrite calculate_discount_in_range by lra.
    rewrite pow_positive_base
      by (try lra; rewrite Rpower_1_base; pose proof float_max_ge_2; lra).
    rewrite Rpower_1_base.
    cbn [bind]. f_equal. unfold normalize_max_discount, Rmax, Rmin.
    decide_reals.
  - intros Hp Hm. rewrite calculate_discount_in_range by lra.
    unfold pow. destruct (Req_dec_T 0 0); [|lra]. destruct (Rlt_dec 0 p); [|lra].
    cbn [bind]. f_equal. unfold normalize_max_discount, Rmax, Rmin.
    decide_reals.
Qed.

Lemma calculate_discount_end_points_witness :
  calculate_discount_from_freshness 1 (3 / 4) (3 / 2) = Ok 0 /\
  calculate_discount_from_freshness 0 (3 / 4) (3 / 2)
  = Ok (if Rlt_dec 1 (3 / 4) then 3 / 4 / 100 else 3 / 4).
Proof.
  split.
  - apply (proj1 (calculate_discount_end_points (3 / 4) (3 / 2))).
  - apply (proj2 (calculate_discount_end_points (3 / 4) (3 / 2))); lra.
Defined.

(** X3: a maximum discount between 1 and 100 is read as a percentage: it
    gives the discount of the hundredth of it. *)
Theorem calculate_discount_percentage_scale (f m p : R) :
  1 < m -> m <= 100 ->
  calculate_discount_from_freshness f m p
  = calculate_discount_from_freshness f (m / 100) p.
Proof.
  intros H1 H100. unfold calculate_discount_from_freshness.
  destruct (Rlt_dec 1 m); [|lra].
  destruct (Rlt_dec 1 (m / 100)); [lra|]. reflexivity.
Qed.

Lemma calculate_discount_percentage_scale_witness :
  calculate_discount_from_freshness (1 / 2) 75 (3 / 2)
  = calculate_discount_from_freshness (1 / 2) (75 / 100) (3 / 2).
Proof.
  apply (calculate_discount_percentage_scale (1 / 2) 75 (3 / 2)); lra.
Defined.

End DiscountEdges.

(** ** Population model: control points and range *)

Section PopulationEdges.

Import Sample.

Lemma strictly_increasing_nondecreasing (l : list R) :
  strictly_increasing l -> nondecreasing l.
Proof.
  induction l as [|x l IH]; [trivial|].
  destruct l as [|y l]; [trivial|].
  intros [Hxy H]. split; [lra|]. apply IH, H.
Qed.

Lemma nondecreasing_head_le_nth (xs : list R) :
  forall x0 i, nondecreasing (x0 :: xs) -> (i <= List.length xs)%nat ->
               x0 <= nth i (x0 :: xs) 0.
Proof.
  induction xs as [|x1 xs IH]; intros x0 i H Hi.
  - simpl in Hi. replace i with 0%nat by lia. simpl. lra.
  - destruct i as [|i]; [simpl; lra|].
    change (x0 <= x1 /\ nondecreasing (x1 :: xs)) in H. destruct H as [H01 H].
    change (nth (S i) (x0 :: x1 :: xs) 0) with (nth i (x1 :: xs) 0).
    simpl in Hi. specialize (IH x1 i H ltac:(lia)). lra.
Qed.

Lemma nondecreasing_nth_le_last (xs : list R) :
  forall x0 i, nondecreasing (x0 :: xs) -> (i <= List.length xs)%nat ->
               nth i (x0 :: xs) 0 <= last xs x0.
Proof.
  induction xs as [|x1 xs IH]; intros x0 i H Hi.
  - simpl in Hi. replace i with 0%nat by lia. simpl. lra.
  - destruct i as [|i].
    + pose proof (nondecreasing_le_last x0 (x1 :: xs) H). simpl nth. lra.
    + change (x0 <= x1 /\ nondecreasing (x1 :: xs)) in H. destruct H as [H01 H].
      change (nth (S i) (x0 :: x1 :: xs) 0) with (nth i (x1 :: xs) 0).
      rewrite last_cons. simpl in Hi. apply IH; [assumption|lia].
Qed.

Lemma interp_segments_at_node (xs : list R) :
  forall ys x0 y0 i,
    List.length xs = List.length ys -> strictly_increasing (x0 :: xs) ->
    (i <= List.length xs)%nat ->
    interp_segments (nth i (x0 :: xs) 0) x0 y0 xs ys = nth i (y0 :: ys) 0.
Proof.
  induction xs as [|x1 xs IH]; intros ys x0 y0 i Hlen Hinc Hi.
  - simpl in Hi. replace i with 0%nat by lia. reflexivity.
  - destruct ys as [|y1 ys]; [discriminate|].
    change (x0 < x1 /\ strictly_increasing (x1 :: xs)) in Hinc.
    destruct Hinc as [H01 Hinc].
    destruct i as [|i].
    + cbn [nth interp_segments]. destruct (Rlt_dec x0 x1); [|lra].
      replace (x0 - x0) with 0 by lra. lra.
    + change (nth (S i) (x0 :: x1 :: xs) 0) with (nth i (x1 :: xs) 0).
      change (nth (S i) (y0 :: y1 :: ys) 0) with (nth i (y1 :: ys) 0).
      simpl in Hi, Hlen.
      pose proof (nondecreasing_head_le_nth xs x1 i
                    (strictly_increasing_nondecreasing _ Hinc) ltac:(lia)).
      cbn [interp_segments].
      destruct (Rlt_dec (nth i (x1 :: xs) 0) x1); [lra|].
      apply IH; [lia|assumption|lia].
Qed.

(** X4: on a well-formed curve with strictly increasing bins the population
    model passes through every control point: at the [i]-th bin it returns
    the [i]-th stored probability. *)
Theorem p_buy_pop_interp_control_point (db : Db) (category : string)
  (c : PriceCurve) (i : nat) :
  MODELS_AVAILABLE db = true ->
  query_price_curve db category = Some c ->
  well_formed c ->
  strictly_increasing (x_discount_bins c) ->
  (i < List.length (x_discount_bins c))%nat ->
  p_buy_pop_interp db (nth i (x_discount_bins c) 0) category
  = nth i (y_pbuy c) 0.
Proof.
  intros Hm Hq Hc Hinc Hi.
  destruct (p_buy_pop_interp_well_formed db (nth i (x_discount_bins c) 0)
              category c Hm Hq Hc) as (x0 & xs & y0 & ys & Ex & Ey & E).
  rewrite E. destruct Hc as [_ Hlen]. rewrite Ex, Ey in *. simpl in Hi, Hlen.
  pose proof (strictly_increasing_nondecreasing _ Hinc) as Hnd.
  pose proof (nondecreasing_head_le_nth xs x0 i Hnd ltac:(lia)).
  pose proof (nondecreasing_nth_le_last xs x0 i Hnd ltac:(lia)).
  unfold np_interp. rewrite last_cons.
  destruct (Rlt_dec (nth i (x0 :: xs) 0) x0); [lra|].
  destruct (Rlt_dec (last xs x0) (nth i (x0 :: xs) 0)); [lra|].
  apply interp_segments_at_node; [lia|assumption|lia].
Qed.

Lemma p_buy_pop_interp_control_point_witness :
  p_buy_pop_interp (db_of_curve apple_curve)
                   (nth 3 (x_discount_bins apple_curve) 0) "apple"
  = nth 3 (y_pbuy apple_curve) 0.
Proof.
  apply (p_buy_pop_interp_control_point (db_of_curve apple_curve) "apple"
           apple_curve 3).
  - reflexivity.
  - reflexivity.
  - split; [discriminate|reflexivity].
  - simpl. lra.
  - simpl. lia.
Defined.

Lemma segment_between (lo hi x0 x1 y0 y1 x : R) :
  x0 <= x < x1 -> lo <= y0 <= hi -> lo <= y1 <= hi ->
  lo <= (y1 - y0) / (x1 - x0) * (x - x0) + y0 <= hi.
Proof.
  intros [Hx0 Hx1] Hy0 Hy1.
  set (t := (x - x0) / (x1 - x0)).
  assert (Ht : 0 <= t <= 1).
  { unfold t. split.
    - apply Rmult_le_pos; [lra|]. left. apply Rinv_0_lt_compat. lra.
    - apply Rmult_le_reg_r with (x1 - x0); [lra|].
      unfold Rdiv. rewrite Rmult_assoc, Rinv_l by lra. lra. }
  replace ((y1 - y0) / (x1 - x0) * (x - x0) + y0) with ((y1 - y0) * t + y0)
    by (unfold t; field; lra).
  nra.
Qed.

Lemma interp_segments_range (lo hi : R) (xs : list R) :
  forall ys x0 y0 x,
    Forall (fun y => lo <= y <= hi) (y0 :: ys) -> x0 <= x ->
    lo <= interp_segments x x0 y0 xs ys <= hi.
Proof.
  induction xs as [|x1 xs IH]; intros ys x0 y0 x Hy Hx.
  - cbn [interp_segments]. now inversion Hy.
  - destruct ys as [|y1 ys]; [cbn [interp_segments]; now inversion Hy|].
    cbn [interp_segments]. inversion Hy as [|? ? Hy0 Hys]; subst.
    destruct (Rlt_dec x x1).
    + apply segment_between; [lra|assumption|now inversion Hys].
    + apply IH; [assumption|lra].
Qed.

Lemma Forall_last_in (P : R -> Prop) (y0 : R) (ys : list R) :
  Forall P (y0 :: ys) -> P (last ys y0).
Proof.
  revert y0. induction ys as [|y1 ys IH]; intros y0 H.
  - now inversion H.
  - rewrite last_cons. apply IH. now inversion H.
Qed.

Lemma linear_fallback_range (d : R) :
  0 <= d -> 5 / 100 <= linear_fallback d <= 9 / 10.
Proof.
  intros Hd. unfold linear_fallback, Rmin.
  destruct (Rle_dec (9 / 10) (5 / 100 + d / 100 * (85 / 100))); lra.
Qed.

(** With stored ordinates in the unit interval the population model returns
    a probability at every non-negative discount. *)
Lemma p_buy_pop_interp_unit (db : Db) (category : string) (d : R) :
  curve_in_unit_interval db category -> 0 <= d ->
  0 <= p_buy_pop_interp db d category <= 1.
Proof.
  intros Hcurve Hd.
  destruct (MODELS_AVAILABLE db) eqn:Hm.
  2:{ rewrite p_buy_pop_interp_unavailable by assumption.
      pose proof (linear_fallback_range d Hd). lra. }
  destruct (query_price_curve db category) as [c|] eqn:Hq.
  2:{ rewrite p_buy_pop_interp_absent by assumption.
      pose proof (linear_fallback_range d Hd). lra. }
  destruct (malformed_or_well_formed c) as [Hc|Hc].
  - rewrite (p_buy_pop_interp_malformed db _ category c) by assumption. lra.
  - pose proof (Hcurve c Hm Hq Hc) as Hy.
    destruct (p_buy_pop_interp_well_formed db d category c Hm Hq Hc)
      as (x0 & xs & y0 & ys & Ex & Ey & E).
    rewrite Ey in Hy. rewrite E. unfold np_interp. rewrite last_cons.
    destruct (Rlt_dec d x0); [now inversion Hy|].
    destruct (Rlt_dec (last xs x0) d).
    + apply (Forall_last_in (fun y => 0 <= y <= 1)), Hy.
    + apply interp_segments_range; [assumption|lra].
Qed.

(** X5: when the stored probabilities of a category lie in [[0,1]] (in any
    order, on any bins), the population model returns a value in [[0,1]] at
    every non-negative discount; without a usable curve the value lies in
    [[0.05, 0.9]]. *)
Theorem p_buy_pop_interp_is_probability (db : Db) (category : string) (d : R) :
  curve_in_unit_interval db category -> 0 <= d ->
  0 <= p_buy_pop_interp db d category <= 1 /\
  (MODELS_AVAILABLE db = false \/ query_price_curve db category = None \/
   (exists c, query_price_curve db category = Some c /\ malformed c) ->
   5 / 100 <= p_buy_pop_interp db d category <= 9 / 10).
Proof.
  intros Hcurve Hd. split; [now apply p_buy_pop_interp_unit|].
  pose proof (linear_fallback_range d Hd) as Hl.
  intros [Hm|[Hq|(c & Hq & Hc)]].
  - now rewrite p_buy_pop_interp_unavailable.
  - now rewrite p_buy_pop_interp_absent.
  - destruct (MODELS_AVAILABLE db) eqn:Hm.
    + rewrite (p_buy_pop_interp_malformed db _ category c) by assumption. lra.
    + now rewrite p_buy_pop_interp_unavailable.
Qed.

Lemma p_buy_pop_interp_is_probability_witness :
  0 <= p_buy_pop_interp (db_of_curve falling_curve) 30 "apple" <= 1 /\
  5 / 100 <= p_buy_pop_interp (db_of_curve falling_curve) 30 "pear" <= 9 / 10.
Proof.
  assert (Ha : curve_in_unit_interval (db_of_curve falling_curve) "apple").
  { intros c _ Hq _. inversion Hq; subst c. simpl. repeat constructor; lra. }
  assert (Hp : curve_in_unit_interval (db_of_curve falling_curve) "pear").
  { intros c _ Hq _. discriminate Hq. }
  split.
  - apply (proj1 (p_buy_pop_interp_is_probability
                    (db_of_curve falling_curve) "apple" 30 Ha ltac:(lra))).
  - apply (proj2 (p_buy_pop_interp_is_probability
                    (db_of_curve falling_curve) "pear" 30 Hp ltac:(lra))).
    right. left. reflexivity.
Defined.

End PopulationEdges.

(** ** Personalized and blended models: bounds, rows, division *)

Section BlendEdges.

Import Sample SampleStats.

Lemma sum_buys_le_trials (l : list UserDiscountStat) :
  (forall r, In r l -> (buys r <= trials r)%nat) ->
  (sum_nat (map buys l) <= sum_nat (map trials l))%nat.
Proof.
  induction l as [|r l IH]; intros H; simpl; [lia|].
  pose proof (H r (or_introl eq_refl)).
  specialize (IH (fun r' Hr' => H r' (or_intror Hr'))). lia.
Qed.

Lemma matching_stats_stored (db : Db) (user_id : Z) (product_name : string)
  (d : R) (r : UserDiscountStat) :
  In r (matching_stats db user_id product_name d) ->
  In r (user_discount_stats db).
Proof.
  unfold matching_stats, query_user_stats. intros H.
  apply filter_In in H. destruct H as [H _].
  apply filter_In in H. tauto.
Qed.

Lemma posterior_mean_bounds (b n : nat) :
  (b <= n)%nat -> (0 < n)%nat ->
  0 < (INR b + 1) / (INR n + 2) < 1 /\ / (INR n + 2) <= (INR b + 1) / (INR n + 2).
Proof.
  intros Hbn Hn.
  assert (Hb : 0 <= INR b) by apply pos_INR.
  assert (Hle : INR b <= INR n) by now apply le_INR.
  assert (Hpos : 0 < INR n + 2) by lra.
  assert (Hinv : 0 < / (INR n + 2)) by now apply Rinv_0_lt_compat.
  unfold Rdiv. repeat split.
  - apply Rmult_lt_0_compat; lra.
  - apply Rmult_lt_reg_r with (INR n + 2); [assumption|].
    rewrite Rmult_assoc, Rinv_l by lra. lra.
  - rewrite <- (Rmult_1_l (/ (INR n + 2))) at 1.
    apply Rmult_le_compat_r; lra.
Qed.

Lemma p_buy_user_beta_cases (db : Db) (user_id : Z)
  (product_name : string) (d : R) :
  stats_consistent db ->
  let p_user := fst (p_buy_user_beta db user_id product_name d) in
  let n := snd (p_buy_user_beta db user_id product_name d) in
  (n = 0%nat -> p_user = 0) /\
  ((0 < n)%nat -> 0 < p_user < 1 /\ / (INR n + 2) <= p_user).
Proof.
  intros Hcons. cbv zeta. unfold p_buy_user_beta.
  destruct (MODELS_AVAILABLE db); cbn [negb].
  2:{ simpl. split; [reflexivity|lia]. }
  destruct (Nat.eqb_spec
              (sum_nat (map trials (matching_stats db user_id product_name d))) 0)
    as [E|E]; cbn [fst snd].
  - split; [reflexivity|lia].
  - split; [lia|]. intros Hn. apply posterior_mean_bounds; [|assumption].
    apply sum_buys_le_trials. intros r Hr. apply Hcons.
    eapply matching_stats_stored; eauto.
Qed.

(** X6: when no stored row counts more purchases than offers, the personal
    estimate is 0 exactly when there is no matching trial, and otherwise lies
    strictly between 0 and 1, at least [1 / (n + 2)]. *)
Theorem p_buy_user_beta_posterior (db : Db) (user_id : Z)
  (product_name : string) (d : R) :
  stats_consistent db ->
  let p_user := fst (p_buy_user_beta db user_id product_name d) in
  let n := snd (p_buy_user_beta db user_id product_name d) in
  (n = 0%nat -> p_user = 0) /\
  ((0 < n)%nat -> 0 < p_user < 1 /\ / (INR n + 2) <= p_user).
Proof.
  intros Hcons. cbv zeta. unfold p_buy_user_beta.
  destruct (MODELS_AVAILABLE db); cbn [negb].
  2:{ simpl. split; [reflexivity|lia]. }
  destruct (Nat.eqb_spec
              (sum_nat (map trials (matching_stats db user_id product_name d))) 0)
    as [E|E]; cbn [fst snd].
  - split; [reflexivity|lia].
  - split; [lia|]. intros Hn. apply posterior_mean_bounds; [|assumption].
    apply sum_buys_le_trials. intros r Hr. apply Hcons.
    eapply matching_stats_stored; eauto.
Qed.

Lemma db_with_stats_consistent : stats_consistent db_with_stats.
Proof.
  intros r [<-|[<-|[<-|[]]]]; simpl; lia.
Qed.

Lemma db_with_stats_trials :
  snd (p_buy_user_beta db_with_stats 1 "apple" 50) = 10%nat.
Proof.
  unfold p_buy_user_beta, matching_stats. cbn. decide_reals. reflexivity.
Qed.

Lemma p_buy_user_beta_posterior_witness :
  fst (p_buy_user_beta (db_of_curve apple_curve) 1 "apple" 50) = 0 /\
  (0 < fst (p_buy_user_beta db_with_stats 1 "apple" 50) < 1 /\
   / (INR (snd (p_buy_user_beta db_with_stats 1 "apple" 50)) + 2)
   <= fst (p_buy_user_beta db_with_stats 1 "apple" 50)).
Proof.
  split.
  - apply (proj1 (p_buy_user_beta_posterior (db_of_curve apple_curve) 1 "apple" 50
                    ltac:(intros r [])) eq_refl).
  - apply (proj2 (p_buy_user_beta_posterior db_with_stats 1 "apple" 50
                    db_with_stats_consistent)).
    rewrite db_with_stats_trials. lia.
Defined.

Lemma matching_stats_add_stat (db : Db) (r : UserDiscountStat) (user_id : Z)
  (product_name : string) (d : R) :
  matching_stats (add_stat db r) user_id product_name d
  = if row_matches r user_id product_name d
    then r :: matching_stats db user_id product_name d
    else matching_stats db user_id product_name d.
Proof.
  unfold matching_stats, query_user_stats, row_matches, add_stat.
  cbn [user_discount_stats filter].
  destruct (andb (Z.eqb (uds_user_id r) user_id)
                 (String.eqb (uds_product_name r) product_name));
    [|reflexivity].
  cbn [filter andb].
  destruct (andb (if Rle_dec (bin_low r) d then true else false)
                 (if Rlt_dec d (bin_high r) then true else false)); reflexivity.
Qed.

Lemma p_buy_user_beta_trials (db : Db) (user_id : Z) (product_name : string)
  (d : R) :
  MODELS_AVAILABLE db = true ->
  snd (p_buy_user_beta db user_id product_name d)
  = matching_trials db user_id product_name d.
Proof.
  intros Hm. rewrite p_buy_user_beta_available by assumption. cbv zeta.
  destruct (Nat.eqb_spec (matching_trials db user_id product_name d) 0) as [E|E];
    simpl; congruence.
Qed.

(** X7: storing one more row changes a user's estimate only if the row is of
    that user and product and its bin, closed below and open above, holds
    the discount; then the row's trials are added to the trial count. *)
Theorem p_buy_user_beta_add_stat (db : Db) (r : UserDiscountStat) (user_id : Z)
  (product_name : string) (d : R) :
  (row_matches r user_id product_name d = false ->
   p_buy_user_beta (add_stat db r) user_id product_name d
   = p_buy_user_beta db user_id product_name d) /\
  (row_matches r user_id product_name d = true ->
   MODELS_AVAILABLE db = true ->
   snd (p_buy_user_beta (add_stat db r) user_id product_name d)
   = (trials r + snd (p_buy_user_beta db user_id product_name d))%nat).
Proof.
  split.
  - intros Hr. unfold p_buy_user_beta.
    rewrite matching_stats_add_stat, Hr. reflexivity.
  - intros Hr Hm.
    rewrite (p_buy_user_beta_trials (add_stat db r)) by exact Hm.
    rewrite (p_buy_user_beta_trials db) by exact Hm.
    unfold matching_trials. rewrite matching_stats_add_stat, Hr. reflexivity.
Qed.

Lemma p_buy_user_beta_add_stat_witness :
  p_buy_user_beta (add_stat db_with_stats discounted_row) 2 "apple" 100
  = p_buy_user_beta db_with_stats 2 "apple" 100 /\
  snd (p_buy_user_beta (add_stat db_with_stats discounted_row) 2 "apple" 10)
  = (trials discounted_row + snd (p_buy_user_beta db_with_stats 2 "apple" 10))%nat.
Proof.
  split.
  - apply (proj1 (p_buy_user_beta_add_stat db_with_stats discounted_row
                    2 "apple" 100)).
    unfold row_matches. cbn. decide_reals; reflexivity.
  - apply (proj2 (p_buy_user_beta_add_stat db_with_stats discounted_row
                    2 "apple" 10)); [|reflexivity].
    unfold row_matches. cbn. decide_reals; reflexivity.
Defined.

Lemma credibility_weight_bounds (n : nat) (m : Z) :
  (0 < n)%nat -> (0 <= m)%Z -> 0 < INR n / IZR (Z.of_nat n + m) <= 1.
Proof.
  intros Hn Hm. rewrite plus_IZR, <- INR_IZR_INZ.
  assert (H0 : 0 < INR n) by (apply lt_0_INR; lia).
  assert (H1 : 0 <= IZR m) by (apply IZR_le; lia).
  assert (Hinv : 0 < / (INR n + IZR m)) by (apply Rinv_0_lt_compat; lra).
  unfold Rdiv. split.
  - apply Rmult_lt_0_compat; lra.
  - apply Rmult_le_reg_r with (INR n + IZR m); [lra|].
    rewrite Rmult_assoc, Rinv_l by lra. lra.
Qed.

Lemma convex_between (w a b : R) :
  0 <= w <= 1 -> Rmin a b <= w * a + (1 - w) * b <= Rmax a b.
Proof.
  intros Hw. unfold Rmin, Rmax. destruct (Rle_dec a b); nra.
Qed.

(** X8: for a non-negative blending parameter and a user with matching
    trials, the blend is a value between the personal and the population
    probability, and it is the personal probability itself when [m = 0]. *)
Theorem p_buy_blend_between (db : Db) (user_id : Z)
  (product_name category : string) (d : R) (m : Z) :
  (0 <= m)%Z ->
  (0 < snd (p_buy_user_beta db user_id product_name d))%nat ->
  let p_pop := p_buy_pop_interp db d category in
  let p_user := fst (p_buy_user_beta db user_id product_name d) in
  exists v,
    p_buy_blend db user_id product_name category d m = Ok v /\
    Rmin p_user p_pop <= v <= Rmax p_user p_pop /\
    (m = 0%Z -> v = p_user).
Proof.
  intros Hm Hn. cbv zeta. unfold p_buy_blend.
  destruct (p_buy_user_beta db user_id product_name d) as [pu n].
  cbn [fst snd] in *.
  destruct (Nat.eqb_spec n 0); [lia|].
  destruct (Z.eqb_spec (Z.of_nat n + m) 0); [lia|].
  pose proof (credibility_weight_bounds n m Hn Hm) as Hw.
  eexists. split; [reflexivity|]. split.
  - apply convex_between. lra.
  - intros ->. rewrite Z.add_0_r, <- INR_IZR_INZ.
    assert (0 < INR n) by (apply lt_0_INR; lia).
    replace (INR n / INR n) with 1 by (field; lra). lra.
Qed.

Lemma p_buy_blend_between_witness :
  exists v,
    p_buy_blend db_with_stats 1 "apple" "apple" 50 15 = Ok v /\
    Rmin (fst (p_buy_user_beta db_with_stats 1 "apple" 50))
         (p_buy_pop_interp db_with_stats 50 "apple")
    <= v
    <= Rmax (fst (p_buy_user_beta db_with_stats 1 "apple" 50))
            (p_buy_pop_interp db_with_stats 50 "apple") /\
    (15%Z = 0%Z -> v = fst (p_buy_user_beta db_with_stats 1 "apple" 50)).
Proof.
  apply (p_buy_blend_between db_with_stats 1 "apple" "apple" 50 15).
  - lia.
  - rewrite db_with_stats_trials. lia.
Defined.

(** X9: the blend raises, and then a [ZeroDivisionError], exactly when the
    user has matching trials and the blending parameter is minus their
    number; on every other input it returns a value. *)
Theorem p_buy_blend_division (db : Db) (user_id : Z)
  (product_name category : string) (d : R) (m : Z) :
  let n := snd (p_buy_user_beta db user_id product_name d) in
  (n <> 0%nat /\ (Z.of_nat n + m = 0)%Z ->
   p_buy_blend db user_id product_name category d m = Raise ZeroDivisionError) /\
  (n = 0%nat \/ (Z.of_nat n + m <> 0)%Z ->
   exists v, p_buy_blend db user_id product_name category d m = Ok v).
Proof.
  cbv zeta. unfold p_buy_blend.
  destruct (p_buy_user_beta db user_id product_name d) as [pu n].
  cbn [snd]. split.
  - intros [Hn Hm]. destruct (Nat.eqb_spec n 0); [contradiction|].
    destruct (Z.eqb_spec (Z.of_nat n + m) 0); [reflexivity|contradiction].
  - intros H. destruct (Nat.eqb_spec n 0); [eexists; reflexivity|].
    destruct (Z.eqb_spec (Z.of_nat n + m) 0); [|eexists; reflexivity].
    destruct H; contradiction.
Qed.

Lemma p_buy_blend_division_witness :
  p_buy_blend db_with_stats 1 "apple" "apple" 50 (-10) = Raise ZeroDivisionError /\
  exists v, p_buy_blend db_with_stats 1 "apple" "apple" 50 0 = Ok v.
Proof.
  split.
  - apply (proj1 (p_buy_blend_division db_with_stats 1 "apple" "apple" 50 (-10))).
    rewrite db_with_stats_trials. split; [discriminate|reflexivity].
  - apply (proj2 (p_buy_blend_division db_with_stats 1 "apple" "apple" 50 0)).
    right. rewrite db_with_stats_trials. discriminate.
Defined.

Lemma p_buy_user_beta_unit (db : Db) (user_id : Z) (product_name : string) (d : R) :
  stats_consistent db ->
  0 <= fst (p_buy_user_beta db user_id product_name d) <= 1.
Proof.
  intros Hcons.
  destruct (p_buy_user_beta_cases db user_id product_name d Hcons) as [H0 Hp].
  destruct (Nat.eq_dec (snd (p_buy_user_beta db user_id product_name d)) 0) as [E|E].
  - rewrite (H0 E). lra.
  - destruct (Hp ltac:(lia)) as [? _]. lra.
Qed.


(** X10: with stored curve probabilities in [[0,1]], no row counting more
    purchases than offers, a non-negative discount and a non-negative
    blending parameter, the blend returns a value in [[0,1]]. *)
Theorem p_buy_blend_is_probability (db : Db) (user_id : Z)
  (product_name category : string) (d : R) (m : Z) :
  curve_in_unit_interval db category -> stats_consistent db ->
  0 <= d -> (0 <= m)%Z ->
  exists v, p_buy_blend db user_id product_name category d m = Ok v /\
            0 <= v <= 1.
Proof.
  intros Hcurve Hcons Hd Hm.
  pose proof (p_buy_pop_interp_unit db category d Hcurve Hd) as Hpop.
  pose proof (p_buy_user_beta_unit db user_id product_name d Hcons) as Hu.
  unfold p_buy_blend.
  destruct (p_buy_user_beta db user_id product_name d) as [pu n].
  cbn [fst] in Hu. destruct (Nat.eqb_spec n 0); [eauto|].
  destruct (Z.eqb_spec (Z.of_nat n + m) 0); [lia|].
  pose proof (credibility_weight_bounds n m ltac:(lia) Hm) as Hw.
  eexists. split; [reflexivity|].
  pose proof (convex_between (INR n / IZR (Z.of_nat n + m)) pu
                (p_buy_pop_interp db d category) ltac:(lra)) as Hc.
  unfold Rmin, Rmax in Hc.
  destruct (Rle_dec pu (p_buy_pop_interp db d category)); lra.
Qed.

Lemma db_with_stats_curve (category : string) :
  curve_in_unit_interval db_with_stats category.
Proof.
  intros c _ Hq _. unfold query_price_curve in Hq. cbn [db_with_stats price_curves find] in Hq.
  destruct (String.eqb (pc_category apple_curve) category); [|discriminate].
  inversion Hq; subst c. simpl. repeat constructor; lra.
Qed.

Lemma p_buy_blend_is_probability_witness :
  exists v, p_buy_blend db_with_stats 1 "apple" "apple" 50 15 = Ok v /\
            0 <= v <= 1.
Proof.
  apply (p_buy_blend_is_probability db_with_stats 1 "apple" "apple" 50 15).
  - apply db_with_stats_curve.
  - apply db_with_stats_consistent.
  - lra.
  - lia.
Defined.

End BlendEdges.

(** ** Solver: bucket counts, range, freshness, no discount, conservation *)

Section SolverEdges.

Import Sample SampleStats.










(** X13: with a single bucket the solver returns the blended buy probability
    at no discount, whatever the freshness and the policy. *)
Theorem sold_prob_markov_single_bucket (db : Db) (freshness dmax alpha : R)
  (dt_hours : R) (user_id : Z) (product_name category : string) :
  exists v,
    p_buy_blend db user_id product_name category 0 15 = Ok v /\
    sold_prob_markov db freshness dmax alpha 1 dt_hours
                     user_id product_name category = Ok v.
Proof.
  exists (blend15 db user_id product_name category 0).
  split; [apply p_buy_blend_15|].
  rewrite sold_prob_markov_value
    by (try lia; apply policy_in_range_single_bucket).
  pose proof (start_bucket_bounds freshness 1 ltac:(lia)) as Hb.
  replace (start_bucket freshness 1) with 1%Z by lia.
  change (Z.to_nat 1) with 1%nat. unfold sale_from. cbn [Nat.sub rprod].
  unfold bucket_p. rewrite bucket_discount_first, Rmult_0_l. f_equal. lra.
Qed.









End SolverEdges.

(** ** Solver: the chain conserves probability *)

Section Conservation.

Variable n : nat.
Variable p : nat -> R.
Variables Qm Rm : ndarray.
Hypothesis HQ : forall i j, Qm i j = chain_Q n p i j.
Hypothesis HR : forall i j, Rm i j = chain_R n p i j.

(** A left inverse applied to a right-hand side returns the solution. *)
Lemma left_inverse_solves (N : ndarray) (s : nat -> R) (j i : nat) :
  eq_on n n (matmul n N (sub eye Qm)) eye ->
  (forall l, (l < n)%nat -> rsum n (fun m => sub eye Qm l m * s m) = Rm l j) ->
  (i < n)%nat ->
  matmul n N Rm i j = s i.
Proof.
  intros Hleft Hs Hi. unfold matmul.
  rewrite (rsum_ext n _
             (fun l => rsum n (fun m => N i l * sub eye Qm l m * s m))).
  2:{ intros l Hl. rewrite <- Hs by assumption.
      rewrite <- rsum_scale_l. apply rsum_ext. intros; lra. }
  rewrite rsum_swap.
  rewrite (rsum_ext n _ (fun m => eye i m * s m)).
  - now apply (rsum_eye_l n i s).
  - intros m Hm. rewrite rsum_scale_r. f_equal. now apply Hleft.
Qed.

(** The probabilities of surviving every bucket from [l + 1] on solve
    [(I - Q) s = R[:, 1]]. *)
Lemma chain_solution_spoiled (l : nat) :
  (l < n)%nat ->
  rsum n (fun m => sub eye Qm l m * rprod (S m) (n - m) (fun k => 1 - p k))
  = Rm l 1%nat.
Proof.
  intros Hl. unfold sub.
  rewrite (rsum_ext n _
             (fun m => eye l m * rprod (S m) (n - m) (fun k => 1 - p k)
                       - Qm l m * rprod (S m) (n - m) (fun k => 1 - p k)))
    by (intros; lra).
  rewrite rsum_minus.
  rewrite (rsum_eye_l n l (fun m => rprod (S m) (n - m) (fun k => 1 - p k)))
    by assumption.
  rewrite (chain_Q_row n p Qm HQ
             (fun m => rprod (S m) (n - m) (fun k => 1 - p k))).
  rewrite HR. unfold chain_R. destruct (Nat.ltb_spec l n); [|lia].
  change (1 =? 0)%nat with false. change (1 =? 1)%nat with true.
  cbn [andb].
  destruct (Nat.ltb_spec (S l) n) as [Hlt|Hge].
  - destruct (Nat.eqb_spec (S l) n); [lia|].
    replace (n - l)%nat with (S (n - S l)) by lia. cbn [rprod]. lra.
  - destruct (Nat.eqb_spec (S l) n); [|lia].
    replace (n - l)%nat with 1%nat by lia. cbn [rprod]. lra.
Qed.

Lemma chain_spoilage (N : ndarray) (i : nat) :
  is_inverse n (sub eye Qm) N -> (i < n)%nat ->
  matmul n N Rm i 1%nat = rprod (S i) (n - i) (fun k => 1 - p k).
Proof.
  intros [_ Hleft] Hi.
  apply (left_inverse_solves N
           (fun m => rprod (S m) (n - m) (fun k => 1 - p k)) 1 i);
    auto using chain_solution_spoiled.
Qed.

Lemma chain_rows_sum_to_one (i : nat) :
  (i < n)%nat -> rsum n (fun j => Qm i j) + Rm i 0%nat + Rm i 1%nat = 1.
Proof.
  intros Hi.
  rewrite (rsum_ext n _ (fun j => Qm i j * 1)) by (intros; lra).
  rewrite (chain_Q_row n p Qm HQ (fun _ => 1)).
  rewrite !HR. unfold chain_R. destruct (Nat.ltb_spec i n); [|lia].
  change (0 =? 0)%nat with true.
  change (1 =? 0)%nat with false. change (1 =? 1)%nat with true.
  cbn [andb].
  destruct (Nat.ltb_spec (S i) n), (Nat.eqb_spec (S i) n); try lia; lra.
Qed.

Lemma chain_absorbs_surely (N : ndarray) (i : nat) :
  is_inverse n (sub eye Qm) N -> (i < n)%nat ->
  matmul n N Rm i 0%nat + matmul n N Rm i 1%nat = 1.
Proof.
  intros HN Hi.
  rewrite (chain_absorption n p Qm Rm HQ HR N i HN Hi).
  rewrite (chain_spoilage N i HN Hi). unfold sale_from.
  replace (S n - S i)%nat with (n - i)%nat by lia. lra.
Qed.

End Conservation.

Section ConservationClaim.

Import Sample.

(** X16: for every [K >= 1], whenever the loop of the solver returns its
    arrays they describe a proper absorbing chain: the inversion succeeds,
    each row of [Q] and [R] together sums to 1, and in [B = (I - Q)^-1 R]
    the probabilities of being sold and of spoiling sum to 1 from every
    bucket. The loop does return when no bucket's power [Fk ** alpha]
    overflows (every [alpha >= 0] is such a power). *)
Theorem sold_prob_markov_conserves_probability (db : Db) (dmax alpha : R)
  (K : Z) (user_id : Z) (product_name category : string) :
  (1 <= K)%Z ->
  let n := Z.to_nat K in
  (forall Qm Rm,
     for_each (chain_step db dmax alpha K user_id product_name category)
              (seq 1 n) (zeros, zeros) = Ok (Qm, Rm) ->
     exists N,
       linalg_inv n (sub eye Qm) = Some N /\
       (forall i, (i < n)%nat ->
          rsum n (fun j => Qm i j) + Rm i 0%nat + Rm i 1%nat = 1) /\
       (forall i, (i < n)%nat ->
          matmul n N Rm i 0%nat + matmul n N Rm i 1%nat = 1)) /\
  (policy_in_range alpha K ->
   exists Qm Rm,
     for_each (chain_step db dmax alpha K user_id product_name category)
              (seq 1 n) (zeros, zeros) = Ok (Qm, Rm)).
Proof.
  intros HK n.
  assert (EK : Z.of_nat n = K) by (unfold n; apply Z2Nat.id; lia).
  set (p := bucket_p db dmax alpha K user_id product_name category).
  split.
  - intros Qm Rm E.
    pose proof (chain_loop_returns db dmax alpha n user_id product_name
                  category Qm Rm) as H.
    rewrite EK in H. destruct (H E) as (_ & HQ & HR). fold p in HQ, HR.
    destruct (linalg_inv_invertible n (sub eye Qm)) as (N & EN & HN);
      [now apply (chain_invertible n p)|].
    exists N. split; [exact EN|]. split.
    + intros i Hi. exact (chain_rows_sum_to_one n p Qm Rm HQ HR i Hi).
    + intros i Hi. exact (chain_absorbs_surely n p Qm Rm HQ HR N i HN Hi).
  - intros Hr.
    pose proof (chain_loop db dmax alpha n user_id product_name category) as H.
    rewrite EK in H. destruct (H Hr) as (Qm & Rm & E & _ & _).
    now exists Qm, Rm.
Qed.

Lemma sold_prob_markov_conserves_probability_witness :
  exists Qm Rm N,
    for_each (chain_step (db_of_curve apple_curve) (3 / 4) (3 / 2) 3
                         1 "apple" "apple")
             (seq 1 3) (zeros, zeros) = Ok (Qm, Rm) /\
    linalg_inv 3 (sub eye Qm) = Some N /\
    (forall i, (i < 3)%nat ->
       rsum 3 (fun j => Qm i j) + Rm i 0%nat + Rm i 1%nat = 1) /\
    (forall i, (i < 3)%nat ->
       matmul 3 N Rm i 0%nat + matmul 3 N Rm i 1%nat = 1).
Proof.
  destruct (sold_prob_markov_conserves_probability
              (db_of_curve apple_curve) (3 / 4) (3 / 2) 3 1 "apple" "apple"
              ltac:(lia)) as (Hfacts & Hreturns).
  destruct (Hreturns (policy_in_range_nonneg (3 / 2) 3 ltac:(lra)))
    as (Qm & Rm & E).
  destruct (Hfacts Qm Rm E) as (N & Hfact).
  exists Qm, Rm, N. split; [exact E|exact Hfact].
Defined.

End ConservationClaim.

(** ** Per-lot impact: equal policies, the quantity as a ceiling *)

Section ImpactEdges.

Import Sample SampleStore.







End ImpactEdges.

(** ** CO2e: fallback tables *)

Section Co2eEdges.

Import Sample SampleStore.

Lemma dict_get_missing (d : list (string * R)) (key : string) (default : R) :
  ~ In key (map fst d) -> dict_get d key default = default.
Proof.
  induction d as [|[k v] d IH]; intros H; [reflexivity|].
  cbn [dict_get]. destruct (String.eqb_spec k key) as [E|E].
  - exfalso. apply H. left. exact E.
  - apply IH. intros Hin. apply H. right. exact Hin.
Qed.

Lemma dict_get_range (lo hi : R) (d : list (string * R)) (key : string)
  (default : R) :
  Forall (fun kv => lo <= snd kv <= hi) d -> lo <= default <= hi ->
  lo <= dict_get d key default <= hi.
Proof.
  induction d as [|[k v] d IH]; intros H Hd; [exact Hd|].
  cbn [dict_get]. inversion H as [|? ? Hv Hrest]; subst.
  destruct (String.eqb k key); [exact Hv|now apply IH].
Qed.

Lemma get_emission_factor_range (s : string) :
  25 / 100 <= get_emission_factor s <= 85 / 100.
Proof.
  unfold get_emission_factor. apply dict_get_range; [|lra].
  unfold CO2_EMISSION_FACTORS.
  repeat (apply Forall_cons; [simpl; lra|]). apply Forall_nil.
Qed.

Lemma get_average_weight_range (s : string) :
  1 / 1000 <= get_average_weight s <= 45 / 10.
Proof.
  unfold get_average_weight. apply dict_get_range; [|lra].
  unfold AVERAGE_WEIGHT_PER_UNIT.
  repeat (apply Forall_cons; [simpl; lra|]). apply Forall_nil.
Qed.


(** X19: for a product with no life-cycle row whose lower-cased name is in
    neither fallback table, the CO2e of a positive number of units is the
    units times the default mass 0.15 kg times the default factor 0.45. *)
Theorem estimate_co2e_saved_unknown_product (db : Db) (units : R)
  (product_name : string) :
  MODELS_AVAILABLE db = true -> 0 < units ->
  query_product_lca db product_name = None ->
  ~ In (lower product_name) (map fst CO2_EMISSION_FACTORS) ->
  ~ In (lower product_name) (map fst AVERAGE_WEIGHT_PER_UNIT) ->
  estimate_co2e_saved db units product_name = units * (15 / 100 * (45 / 100)).
Proof.
  intros Hm Hu Hq Hef Hw. unfold estimate_co2e_saved.
  rewrite Hm, Hq. destruct (Rle_dec units 0); [lra|]. cbn [negb orb].
  unfold get_emission_factor, get_average_weight.
  now rewrite !dict_get_missing by assumption.
Qed.

Lemma estimate_co2e_saved_unknown_product_witness :
  estimate_co2e_saved store_db 10 "Kiwi" = 10 * (15 / 100 * (45 / 100)).
Proof.
  apply (estimate_co2e_saved_unknown_product store_db 10 "Kiwi").
  - reflexivity.
  - lra.
  - reflexivity.
  - cbn. intuition discriminate.
  - cbn. intuition discriminate.
Defined.

(** X20: for a product with no life-cycle row, the CO2e of a positive number
    of units is what [waste_impact] computes for the weight of those units,
    [calculate_co2_saved] of [calculate_weight_from_quantity], and it is
    positive. *)
Theorem estimate_co2e_saved_fallback (db : Db) (units : R)
  (product_name : string) :
  MODELS_AVAILABLE db = true -> 0 < units ->
  query_product_lca db product_name = None ->
  estimate_co2e_saved db units product_name
  = calculate_co2_saved product_name
      (calculate_weight_from_quantity product_name units) /\
  0 < estimate_co2e_saved db units product_name.
Proof.
  intros Hm Hu Hq. unfold estimate_co2e_saved.
  rewrite Hm, Hq. destruct (Rle_dec units 0); [lra|]. cbn [negb orb].
  unfold calculate_co2_saved, calculate_weight_from_quantity.
  pose proof (get_emission_factor_range product_name).
  pose proof (get_average_weight_range product_name).
  split; [lra|]. apply Rmult_lt_0_compat; [assumption|].
  apply Rmult_lt_0_compat; lra.
Qed.

Lemma estimate_co2e_saved_fallback_witness :
  estimate_co2e_saved store_db 10 "apple"
  = calculate_co2_saved "apple" (calculate_weight_from_quantity "apple" 10) /\
  0 < estimate_co2e_saved store_db 10 "apple".
Proof.
  apply (estimate_co2e_saved_fallback store_db 10 "apple").
  - reflexivity.
  - lra.
  - reflexivity.
Defined.

Lemma lower_ascii_idempotent (c : ascii) :
  lower_ascii (lower_ascii c) = lower_ascii c.
Proof.
  destruct c as [[] [] [] [] [] [] [] []]; reflexivity.
Qed.

Lemma lower_idempotent (s : string) : lower (lower s) = lower s.
Proof.
  induction s as [|c s IH]; [reflexivity|].
  cbn [lower]. now rewrite lower_ascii_idempotent, IH.
Qed.

(** X21: the fallback tables ignore letter case: a product name and its
    lower-cased form get the same emission factor, the same average weight
    and the same baseline waste rate. *)
Theorem fallback_tables_ignore_case (fruit_type : string) :
  get_emission_factor (lower fruit_type) = get_emission_factor fruit_type /\
  get_average_weight (lower fruit_type) = get_average_weight fruit_type /\
  get_baseline_waste_rate (lower fruit_type) = get_baseline_waste_rate fruit_type.
Proof.
  unfold get_emission_factor, get_average_weight, get_baseline_waste_rate.
  now rewrite lower_idempotent.
Qed.

End Co2eEdges.

(** ** Portfolio aggregate: sums over the lots, signs *)

Section AggregateEdges.

Import Sample SampleStore.

Lemma lot_units_nonneg (db : Db) (baseline_params dynamic_params : PolicyParams)
  (user_id : Z) (item : FruitInventory) :
  0 <= lot_units db baseline_params dynamic_params user_id item.
Proof.
  unfold lot_units.
  destruct (estimate_units_saved db (inv_id item) baseline_params dynamic_params
                                 user_id 48 1) as [units|e] eqn:E; [|lra].
  exact (estimate_units_saved_result_nonneg _ _ _ _ _ _ _ _ E).
Qed.

Lemma aggregate_step_adds (db : Db) (baseline_params dynamic_params : PolicyParams)
  (user_id : Z) (a b c d : R) (item : FruitInventory) :
  let units := lot_units db baseline_params dynamic_params user_id item in
  aggregate_step db baseline_params dynamic_params user_id (a, b, c, d) item
  = (a + units,
     b + estimate_co2e_saved db units (fruit_type item),
     c + estimate_additional_revenue_generated units (fruit_type item)
           (price_per_unit item),
     d + calculate_weight_from_quantity (fruit_type item) units).
Proof.
  cbv zeta.
  pose proof (lot_units_nonneg db baseline_params dynamic_params user_id item)
    as Hpos.
  unfold aggregate_step, lot_units in *.
  destruct (estimate_units_saved db (inv_id item) baseline_params dynamic_params
                                 user_id 48 1) as [units|e].
  - destruct (Rlt_dec 0 units); [reflexivity|].
    assert (units = 0) by lra. subst units.
    unfold estimate_additional_revenue_generated, calculate_weight_from_quantity.
    rewrite estimate_co2e_saved_zero, !Rmult_0_l, !Rplus_0_r. reflexivity.
  - unfold estimate_additional_revenue_generated, calculate_weight_from_quantity.
    rewrite estimate_co2e_saved_zero, !Rmult_0_l, !Rplus_0_r. reflexivity.
Qed.

Lemma fold_left_aggregate_step (db : Db)
  (baseline_params dynamic_params : PolicyParams) (user_id : Z)
  (items : list FruitInventory) :
  forall a b c d,
    let units := lot_units db baseline_params dynamic_params user_id in
    fold_left (aggregate_step db baseline_params dynamic_params user_id)
              items (a, b, c, d)
    = (a + sum_R (map units items),
       b + sum_R (map (fun it => estimate_co2e_saved db (units it) (fruit_type it))
                      items),
       c + sum_R (map (fun it => estimate_additional_revenue_generated
                                   (units it) (fruit_type it) (price_per_unit it))
                      items),
       d + sum_R (map (fun it => calculate_weight_from_quantity
                                   (fruit_type it) (units it))
                      items)).
Proof.
  cbv zeta. induction items as [|item items IH]; intros a b c d.
  - cbn [fold_left map sum_R fold_right]. now rewrite !Rplus_0_r.
  - cbn [fold_left]. rewrite aggregate_step_adds. cbv zeta. rewrite IH.
    cbn [map sum_R fold_right]. f_equal; [f_equal; [f_equal|]|]; unfold sum_R; lra.
Qed.

Lemma sum_R_zero {A : Type} (f : A -> R) (l : list A) :
  (forall x, f x = 0) -> sum_R (map f l) = 0.
Proof.
  intros H. induction l as [|x l IH]; [reflexivity|].
  cbn [map sum_R fold_right]. fold (sum_R (map f l)). rewrite H, IH. lra.
Qed.

Lemma sum_R_nonneg {A : Type} (f : A -> R) (l : list A) :
  (forall x, 0 <= f x) -> 0 <= sum_R (map f l).
Proof.
  intros H. induction l as [|x l IH]; [simpl; lra|].
  cbn [map sum_R fold_right]. fold (sum_R (map f l)). specialize (H x). lra.
Qed.

Lemma lot_units_unavailable (db : Db) (baseline_params dynamic_params : PolicyParams)
  (user_id : Z) (item : FruitInventory) :
  MODELS_AVAILABLE db = false ->
  lot_units db baseline_params dynamic_params user_id item = 0.
Proof.
  intros Hm. unfold lot_units, estimate_units_saved. now rewrite Hm.
Qed.

(** The four totals of the aggregate once a user is settled. *)
Lemma compute_aggregate_impact_totals (db : Db) (store user_id : option Z)
  (baseline_params dynamic_params : option PolicyParams) (user : Z) :
  resolved_user db user_id = Some user ->
  let units :=
    lot_units db (resolved_policy baseline_params default_baseline)
              (resolved_policy dynamic_params default_dynamic) user in
  let items := query_inventory db store in
  compute_aggregate_impact db store user_id baseline_params dynamic_params
  = {| units_saved := round2 (sum_R (map units items));
       waste_saved_kg :=
         round2 (sum_R (map (fun it => calculate_weight_from_quantity
                                         (fruit_type it) (units it)) items));
       co2e_saved :=
         round2 (sum_R (map (fun it => estimate_co2e_saved db (units it)
                                         (fruit_type it)) items));
       revenue_generated :=
         round2 (sum_R (map (fun it => estimate_additional_revenue_generated
                                         (units it) (fruit_type it)
                                         (price_per_unit it)) items)) |}.
Proof.
  intros Huser. cbv zeta. unfold compute_aggregate_impact.
  destruct (MODELS_AVAILABLE db) eqn:Hm; cbn [negb].
  - unfold resolved_user in Huser. rewrite Huser.
    destruct (query_inventory db store) as [|item items] eqn:Hitems.
    + cbn [List.length Nat.eqb map sum_R fold_right].
      now rewrite round2_zero.
    + cbn [List.length Nat.eqb]. unfold resolved_policy.
      rewrite fold_left_aggregate_step. cbv zeta. now rewrite !Rplus_0_l.
  - unfold zero_impact.
    rewrite !sum_R_zero, round2_zero; try reflexivity; intros it;
      rewrite lot_units_unavailable by assumption;
      unfold estimate_additional_revenue_generated, calculate_weight_from_quantity;
      rewrite ?estimate_co2e_saved_zero; lra.
Qed.

(** X22: once a user is settled, every total of the aggregate is the sum
    over the lots of positive quantity (of the store, when one is given) of
    what each lot contributes, rounded to 2 decimals: the lot's estimated
    units, and the CO2e, the revenue and the weight of those units. A lot
    whose estimate is zero or raises contributes nothing. *)
Theorem compute_aggregate_impact_sums (db : Db) (store user_id : option Z)
  (baseline_params dynamic_params : option PolicyParams) (user : Z) :
  resolved_user db user_id = Some user ->
  let units :=
    lot_units db (resolved_policy baseline_params default_baseline)
              (resolved_policy dynamic_params default_dynamic) user in
  let items := query_inventory db store in
  let aggregate :=
    compute_aggregate_impact db store user_id baseline_params dynamic_params in
  units_saved aggregate = round2 (sum_R (map units items)) /\
  co2e_saved aggregate
  = round2 (sum_R (map (fun it => estimate_co2e_saved db (units it)
                                    (fruit_type it)) items)) /\
  revenue_generated aggregate
  = round2 (sum_R (map (fun it => estimate_additional_revenue_generated
                                    (units it) (fruit_type it)
                                    (price_per_unit it)) items)) /\
  waste_saved_kg aggregate
  = round2 (sum_R (map (fun it => calculate_weight_from_quantity
                                    (fruit_type it) (units it)) items)).
Proof.
  intros Huser. cbv zeta.
  rewrite (compute_aggregate_impact_totals db store user_id baseline_params
             dynamic_params user Huser).
  cbv zeta. cbn [units_saved co2e_saved revenue_generated waste_saved_kg].
  repeat split; reflexivity.
Qed.

Lemma compute_aggregate_impact_sums_witness :
  units_saved (compute_aggregate_impact store_db (Some 1%Z) None None None)
  = round2 (sum_R (map (lot_units store_db
                          (resolved_policy None default_baseline)
                          (resolved_policy None default_dynamic) 1)
                       (query_inventory store_db (Some 1%Z)))).
Proof.
  apply (compute_aggregate_impact_sums store_db (Some 1%Z) None None None 1).
  reflexivity.
Defined.

Lemma round_half_even_nonneg (y : R) : 0 <= y -> (0 <= round_half_even y)%Z.
Proof.
  intros Hy. unfold round_half_even.
  assert (H : (0 <= Int_part y)%Z).
  { destruct (base_Int_part y) as [_ H].
    apply Z.lt_succ_r. apply lt_IZR. rewrite succ_IZR. lra. }
  destruct (Rlt_dec (y - IZR (Int_part y)) (1 / 2)); [assumption|].
  destruct (Rlt_dec (1 / 2) (y - IZR (Int_part y))); [lia|].
  destruct (Z.even (Int_part y)); lia.
Qed.

Lemma round2_nonneg (x : R) : 0 <= x -> 0 <= round2 x.
Proof.
  intros Hx. unfold round2.
  assert (H : 0 <= IZR (round_half_even (x * 100)))
    by (apply IZR_le, round_half_even_nonneg; lra).
  lra.
Qed.

(** X23: whatever the stored data and the arguments, the aggregate never
    reports a negative number of units saved nor a negative weight saved. *)
Theorem compute_aggregate_impact_nonnegative (db : Db) (store user_id : option Z)
  (baseline_params dynamic_params : option PolicyParams) :
  let aggregate :=
    compute_aggregate_impact db store user_id baseline_params dynamic_params in
  0 <= units_saved aggregate /\ 0 <= waste_saved_kg aggregate.
Proof.
  cbv zeta.
  destruct (resolved_user db user_id) as [user|] eqn:Huser.
  - rewrite (compute_aggregate_impact_totals db store user_id baseline_params
               dynamic_params user Huser).
    cbv zeta. cbn [units_saved waste_saved_kg]. split; apply round2_nonneg.
    + apply sum_R_nonneg. intros it. apply lot_units_nonneg.
    + apply (sum_R_nonneg
               (fun it => calculate_weight_from_quantity (fruit_type it)
                            (lot_units db
                               (resolved_policy baseline_params default_baseline)
                               (resolved_policy dynamic_params default_dynamic)
                               user it))).
      intros it. unfold calculate_weight_from_quantity.
      pose proof (get_average_weight_range (fruit_type it)).
      pose proof (lot_units_nonneg db
                    (resolved_policy baseline_params default_baseline)
                    (resolved_policy dynamic_params default_dynamic) user it).
      nra.
  - unfold compute_aggregate_impact. unfold resolved_user in Huser.
    rewrite Huser. destruct (MODELS_AVAILABLE db); simpl; lra.
Qed.

End AggregateEdges.

(** ** waste_impact.py: discount effectiveness and baseline waste *)

Section WasteImpact.

Import Sample SampleStore.

Lemma effectiveness_as_interp (discount : R) :
  _interpolate_discount_effectiveness discount
  = np_interp discount (map fst DISCOUNT_EFFECTIVENESS)
              (map snd DISCOUNT_EFFECTIVENESS) 0 (90 / 100).
Proof.
  unfold _interpolate_discount_effectiveness, np_interp, DISCOUNT_EFFECTIVENESS.
  cbn [map fst snd hd last effectiveness_scan interp_segments].
  repeat match goal with
         | |- context [Rlt_dec ?a ?b] => destruct (Rlt_dec a b)
         | |- context [Rle_dec ?a ?b] => destruct (Rle_dec a b)
         end; cbn [andb]; lra.
Qed.

(** X24: the hand-written interpolation of the discount effectiveness is the
    piecewise-linear interpolant of its table, the same value [np.interp]
    gives on the sorted keys and their values; the 0.5 after its loop is
    never what decides the result. *)
Theorem interpolate_discount_effectiveness_is_interp (discount : R) :
  _interpolate_discount_effectiveness discount
  = np_interp discount (map fst DISCOUNT_EFFECTIVENESS)
              (map snd DISCOUNT_EFFECTIVENESS) 0 (90 / 100).
Proof.
  unfold _interpolate_discount_effectiveness, np_interp, DISCOUNT_EFFECTIVENESS.
  cbn [map fst snd hd last effectiveness_scan interp_segments].
  repeat match goal with
         | |- context [Rlt_dec ?a ?b] => destruct (Rlt_dec a b)
         | |- context [Rle_dec ?a ?b] => destruct (Rle_dec a b)
         end; cbn [andb]; lra.
Qed.

Lemma discount_effectiveness_table_sorted :
  nondecreasing (map fst DISCOUNT_EFFECTIVENESS) /\
  nondecreasing (map snd DISCOUNT_EFFECTIVENESS).
Proof. simpl. lra. Qed.

(** X25: the discount effectiveness lies in [[0, 0.9]], never decreases as
    the discount grows, is 0 for a discount of 0 or less and 0.9 for a
    discount of 75 or more. *)
Theorem interpolate_discount_effectiveness_range (d1 d2 : R) :
  d1 <= d2 ->
  0 <= _interpolate_discount_effectiveness d1 /\
  _interpolate_discount_effectiveness d1
  <= _interpolate_discount_effectiveness d2 /\
  _interpolate_discount_effectiveness d2 <= 9 / 10 /\
  (d2 <= 0 -> _interpolate_discount_effectiveness d2 = 0) /\
  (75 <= d1 -> _interpolate_discount_effectiveness d1 = 9 / 10).
Proof.
  intros Hd. destruct discount_effectiveness_table_sorted as [Hx Hy].
  rewrite !effectiveness_as_interp.
  cbn [DISCOUNT_EFFECTIVENESS map fst snd] in *.
  pose proof (np_interp_bounds 0 0 _ _ d1 Hx Hy) as B1.
  pose proof (np_interp_bounds 0 0 _ _ d2 Hx Hy) as B2.
  pose proof (np_interp_monotone 0 0 _ _ d1 d2 Hx Hy Hd) as M.
  cbn [last] in B1, B2, M.
  split; [lra|]. split; [exact M|]. split; [lra|]. split.
  - intros H0.
    pose proof (np_interp_monotone 0 0 _ _ d2 0 Hx Hy H0) as M0.
    cbn [last] in M0.
    assert (E : np_interp 0 [0; 10; 25; 50; 75]
                  [0; 15 / 100; 45 / 100; 75 / 100; 90 / 100] 0 (90 / 100) = 0).
    { unfold np_interp. cbn [last interp_segments]. decide_reals. }
    rewrite E in M0. lra.
  - intros H75.
    pose proof (np_interp_monotone 0 0 _ _ 75 d1 Hx Hy H75) as M75.
    cbn [last] in M75.
    assert (E : np_interp 75 [0; 10; 25; 50; 75]
                  [0; 15 / 100; 45 / 100; 75 / 100; 90 / 100] 0 (90 / 100)
                = 90 / 100).
    { unfold np_interp. cbn [last interp_segments]. decide_reals. }
    rewrite E in M75. lra.
Qed.

Lemma interpolate_discount_effectiveness_range_witness :
  0 <= _interpolate_discount_effectiveness 20 /\
  _interpolate_discount_effectiveness 20
  <= _interpolate_discount_effectiveness 30 /\
  _interpolate_discount_effectiveness 30 <= 9 / 10 /\
  (30 <= 0 -> _interpolate_discount_effectiveness 30 = 0) /\
  (75 <= 20 -> _interpolate_discount_effectiveness 20 = 9 / 10).
Proof.
  apply (interpolate_discount_effectiveness_range 20 30). lra.
Defined.






End WasteImpact.

(** ** Freshness scale, counted lots, spoiled items *)

Section ScaleAndFilter.

Import Sample SampleStore.

(** The solver reads the curves and the statistics, never the inventory. *)
Lemma sold_prob_markov_with_inventory (db : Db) (lots : list FruitInventory)
  (f dmax alpha : R) (K : Z) (dt : R) (user_id : Z)
  (product_name category : string) :
  sold_prob_markov (with_inventory db lots) f dmax alpha K dt
                   user_id product_name category
  = sold_prob_markov db f dmax alpha K dt user_id product_name category.
Proof. reflexivity. Qed.

(** X28: a stored freshness score between 1 and 100 is read as a
    percentage: the estimate of a lot stored with score [s] is the estimate
    of the same lot stored with score [s / 100]. *)
Theorem estimate_units_saved_percent_scale (db : Db) (item : FruitInventory)
  (others : list FruitInventory) (s : R)
  (baseline_params dynamic_params : PolicyParams) (user_id K : Z) (dt_hours : R) :
  1 < s -> s <= 100 ->
  estimate_units_saved
    (with_inventory db (with_freshness item (Some s) :: others))
    (inv_id item) baseline_params dynamic_params user_id K dt_hours
  = estimate_units_saved
      (with_inventory db (with_freshness item (Some (s / 100)) :: others))
      (inv_id item) baseline_params dynamic_params user_id K dt_hours.
Proof.
  intros H1 H100. unfold estimate_units_saved, query_inventory_get.
  cbn [with_inventory MODELS_AVAILABLE inventory find with_freshness inv_id].
  rewrite Z.eqb_refl.
  cbn [freshness fruit_type quantity with_freshness].
  destruct (Rlt_dec 1 s); [|lra]. destruct (Rlt_dec 1 (s / 100)); [lra|].
  reflexivity.
Qed.

Lemma estimate_units_saved_percent_scale_witness :
  estimate_units_saved
    (with_inventory store_db [with_freshness apple_lot (Some 20)])
    (inv_id apple_lot) default_baseline default_dynamic 1 48 1
  = estimate_units_saved
      (with_inventory store_db [with_freshness apple_lot (Some (20 / 100))])
      (inv_id apple_lot) default_baseline default_dynamic 1 48 1.
Proof.
  apply (estimate_units_saved_percent_scale store_db apple_lot [] 20
           default_baseline default_dynamic 1 48 1); lra.
Defined.

(** X29: the lots the aggregate visits are exactly the stored lots of
    positive quantity, of every store when no store or store 0 is given, of
    the given store otherwise. *)
Theorem query_inventory_counts (db : Db) (store : option Z)
  (item : FruitInventory) :
  In item (query_inventory db store) <->
  In item (inventory db) /\ (0 < quantity item)%Z /\
  (store = None \/ store = Some 0%Z \/ store = Some (store_id item)).
Proof.
  unfold query_inventory. destruct store as [s|].
  - destruct (Z.eqb_spec s 0) as [->|Hs].
    + rewrite filter_In, Z.ltb_lt. intuition.
    + rewrite !filter_In, Z.ltb_lt, Z.eqb_eq. split.
      * intros [[Hin Hq] Hst]. subst s. auto.
      * intros (Hin & Hq & [H|[H|H]]); try discriminate.
        -- inversion H. contradiction.
        -- inversion H. auto.
  - rewrite filter_In, Z.ltb_lt. intuition.
Qed.

Lemma query_inventory_counts_witness :
  In apple_lot (query_inventory store_db (Some 0%Z)).
Proof.
  apply (proj2 (query_inventory_counts store_db (Some 0%Z) apple_lot)).
  split; [left; reflexivity|]. split; [reflexivity|]. right. left. reflexivity.
Defined.



End ScaleAndFilter.
